(** * CodeShieldAI backend: transaction submission, nonce cache and storage fall-back

    A shallow embedding of the parts of [github_protection_agent] that
    carry the system's contracts:

    - [blockchain_utilities.py]: [IPFSUtils] (hash validation, gateway
      URLs, CID extraction), [BlockchainUtils.estimate_total_cost] and
      [BlockchainUtils.retry_transaction];
    - [filecoin_contracts.py]: the nonce cache, the submission loop
      [_send_transaction_with_retry] and the three on-chain operations;
    - [enhanced_ipfs_manager.py]: the service priority and [upload_to_ipfs];
    - [complete_filecoin_agent.py]: the similarity threshold of the
      violation scan and of the bounty claim.

    Conventions.  Python [str] values are Rocq strings (a sequence of
    characters; [len] is [String.length]).  Python [int] is [Z].  Python
    [float] values (clock readings, delays, similarity scores) are exact
    rationals [Q].  A Python dict with a fixed set of keys is a record or an
    inductive with one constructor per shape; a dict used as a map
    ([config], [repo_data]) is a [gmap string string].  Calls that leave the
    process (the JSON-RPC node, HTTP uploads, the clock, [time.sleep]) are
    handlers over an abstract world [W]; every theorem quantifies over the
    handlers, that is over every behaviour of the outside world. *)

From Stdlib Require Import ZArith QArith Lia Lqa Ascii String Sorted.
From stdpp Require Import base option strings list gmap.

Local Open Scope string_scope.
Local Open Scope list_scope.
Local Open Scope Z_scope.

(** ** Python string operations *)

Module PyStr.

(** [s.startswith(p)], by recursion on the prefix [p]. *)
Fixpoint startswith (p s : string) : bool :=
  match p with
  | EmptyString => true
  | String a p' =>
      match s with
      | EmptyString => false
      | String b s' => Ascii.eqb a b && startswith p' s'
      end
  end.

(** [sub in s]: [sub] occurs at some position of [s]. *)
Fixpoint contains (sub s : string) : bool :=
  startswith sub s ||
  match s with
  | EmptyString => false
  | String _ s' => contains sub s'
  end.

(** [c.lower()] on one character: the letters A..Z move to a..z. *)
Definition lower_char (c : ascii) : ascii :=
  let n := Ascii.N_of_ascii c in
  if ((65 <=? n) && (n <=? 90))%N then Ascii.ascii_of_N (n + 32) else c.

(** [s.lower()]. *)
Fixpoint lower (s : string) : string :=
  match s with
  | EmptyString => EmptyString
  | String c s' => String (lower_char c) (lower s')
  end.

(** [s.split(sep)] for a non-empty [sep] (the only use in the source is
    with the literals ['/ipfs/'], ['/'] and a newline): scan left to right;
    where [sep] starts, close the current piece and skip [sep].  [skip] counts
    the characters of a matched separator still to be dropped.  The result
    is never empty. *)
Fixpoint split_aux (sep : string) (skip : nat) (s : string) : list string :=
  match s with
  | EmptyString => [EmptyString]
  | String c s' =>
      match skip with
      | S k => split_aux sep k s'
      | O =>
          if startswith sep s
          then EmptyString :: split_aux sep (String.length sep - 1) s'
          else match split_aux sep 0 s' with
               | p :: ps => String c p :: ps
               | [] => [String c EmptyString]
               end
      end
  end.

Definition split (sep s : string) : list string := split_aux sep 0 s.

(** [parts[0]] of a list known to be non-empty. *)
Definition first_part (parts : list string) : string :=
  match parts with
  | p :: _ => p
  | [] => EmptyString
  end.

End PyStr.

(** ** [blockchain_utilities.IPFSUtils] *)

Module IPFSUtils.
Import PyStr.

(** [validate_ipfs_hash]: the empty string is falsy and is rejected first. *)
Definition validate_ipfs_hash (ipfs_hash : string) : bool :=
  if String.eqb ipfs_hash EmptyString then false
  else if startswith "Qm" ipfs_hash && (String.length ipfs_hash =? 46)%nat then true
  else if startswith "b" ipfs_hash && (50 <=? String.length ipfs_hash)%nat then true
  else if startswith "local://" ipfs_hash then true
  else false.

(** [extract_cid_from_url]. *)
Definition extract_cid_from_url (url : string) : option string :=
  if contains "/ipfs/" url then
    let parts := split "/ipfs/" url in
    match parts with
    | _ :: p1 :: _ =>
        let cid := first_part (split "/" p1) in
        if validate_ipfs_hash cid then Some cid else None
    | _ => None
    end
  else None.

(** [generate_ipfs_urls]. *)
Definition generate_ipfs_urls (ipfs_hash : string) : list string :=
  if negb (validate_ipfs_hash ipfs_hash) then []
  else if startswith "local://" ipfs_hash then [ipfs_hash]
  else [ "https://ipfs.io/ipfs/" +:+ ipfs_hash;
         "https://gateway.pinata.cloud/ipfs/" +:+ ipfs_hash;
         "https://cloudflare-ipfs.com/ipfs/" +:+ ipfs_hash;
         "https://dweb.link/ipfs/" +:+ ipfs_hash ].

End IPFSUtils.

(** ** Python control flow: exceptions, state, calls to the outside *)

Module Py.

(** An exception object: its class name and [str(e)].  Every exception of
    the model is an instance of [Exception], which is what the handlers of
    the source catch. *)
Record exn : Type := Exn { exn_class : string; str : string }.

Inductive Res (A : Type) : Type :=
| Ok (a : A)
| Raise (e : exn).
Arguments Ok {A} a.
Arguments Raise {A} e.

Definition is_ok {A} (r : Res A) : bool :=
  match r with Ok _ => true | Raise _ => false end.

(** A computation over a state [S] that returns or raises, and logs the
    calls it makes to the outside as events of type [E], oldest first.
    State changes made before a [raise] stay, as in Python. *)
Definition M (E S A : Type) : Type := S -> Res A * S * list E.

Section Ops.
Context {E S : Type}.

Definition ret {A} (a : A) : M E S A := fun s => (Ok a, s, []).

Definition raise {A} (e : exn) : M E S A := fun s => (Raise e, s, []).

Definition bind {A B} (m : M E S A) (k : A -> M E S B) : M E S B :=
  fun s =>
    match m s with
    | (Ok a, s1, l1) => let '(r, s2, l2) := k a s1 in (r, s2, l1 ++ l2)
    | (Raise e, s1, l1) => (Raise e, s1, l1)
    end.

(** [try: m  except Exception as e: h e]. *)
Definition try_catch {A} (m : M E S A) (h : exn -> M E S A) : M E S A :=
  fun s =>
    match m s with
    | (Ok a, s1, l1) => (Ok a, s1, l1)
    | (Raise e, s1, l1) => let '(r, s2, l2) := h e s1 in (r, s2, l1 ++ l2)
    end.

Definition get : M E S S := fun s => (Ok s, s, []).
Definition modify (f : S -> S) : M E S unit := fun s => (Ok tt, f s, []).

(** [for x in xs: body x], where the body either returns from the enclosing
    function ([Some r]) or falls through to the next iteration ([None]);
    [after] is the code that follows the loop. *)
Fixpoint for_each {I R} (xs : list I) (body : I -> M E S (option R))
    (after : M E S R) : M E S R :=
  match xs with
  | [] => after
  | x :: xs' =>
      bind (body x) (fun r =>
        match r with
        | Some v => ret v
        | None => for_each xs' body after
        end)
  end.

(** [for x in xs: acc = body x acc]: a loop without [return], which
    threads the values it accumulates. *)
Fixpoint fold_each {I Acc} (xs : list I) (body : I -> Acc -> M E S Acc)
    (acc : Acc) : M E S Acc :=
  match xs with
  | [] => ret acc
  | x :: xs' => bind (body x acc) (fun acc' => fold_each xs' body acc')
  end.

End Ops.

(** [range(n)]: empty when [n <= 0]. *)
Definition range (n : Z) : list Z := map Z.of_nat (seq 0 (Z.to_nat n)).

(** [a > b] on floats read as rationals. *)
Definition Qgtb (a b : Q) : bool := negb (Qle_bool a b).

End Py.

Notation "'let*' x ':=' m 'in' k" := (Py.bind m (fun x => k))
  (at level 10, x name, m at level 100, k at level 200).

(** ** [filecoin_contracts.FilecoinContractInterface] *)

Module FilecoinContracts.
Import PyStr Py.

(** The block tag of [get_transaction_count]. *)
Inductive BlockTag : Type := pending | latest.

(** The attributes of a mined receipt that the module reads. *)
Record Receipt : Type := {
  status : Z;
  blockNumber : Z;
  gasUsed : Z
}.

(** The account loaded from the private key. *)
Record Account : Type := { address : string }.

(** The contract functions the module calls, with their arguments. *)
Inductive ContractCall : Type :=
| processSubmission (submissionType repoId : Z) (githubUrl repoHash codeFingerprint : string)
    (keyFeatures : list string) (licenseType ipfsMetadata evidenceHash : string)
    (similarityScore : Z)
| addLink (url licenseCID : string)
| fileDMCA (url dmcaCID : string).

(** The dict passed to [build_transaction].  [tx_nonce] is whatever
    [_get_nonce] returned. *)
Record TxParams : Type := {
  tx_from : string;
  tx_gas : Z;
  tx_gasPrice : Z;
  tx_nonce : option Z;
  tx_chainId : Z
}.

(** The fields of the object.  [_nonce_cache] is [None] or an int. *)
Record Interface : Type := {
  chain_id : Z;
  private_key : option string;
  account : option Account;
  _nonce_cache : option Z;
  _last_nonce_update : Q
}.

Definition set_nonce_cache (v : option Z) (i : Interface) : Interface :=
  {| chain_id := chain_id i; private_key := private_key i; account := account i;
     _nonce_cache := v; _last_nonce_update := _last_nonce_update i |}.

Definition set_last_nonce_update (t : Q) (i : Interface) : Interface :=
  {| chain_id := chain_id i; private_key := private_key i; account := account i;
     _nonce_cache := _nonce_cache i; _last_nonce_update := t |}.

(** The result dict of a submission; a key that is absent is [None]. *)
Record TxResult : Type := {
  success : bool;
  error : option string;
  tx_hash : option string;
  block_number : option Z;
  gas_used : option Z;
  receipt : option Receipt;
  repo_id : option Z
}.

Definition failure_dict (msg : string) : TxResult :=
  {| success := false; error := Some msg; tx_hash := None; block_number := None;
     gas_used := None; receipt := None; repo_id := None |}.

Definition success_dict (h : string) (r : Receipt) : TxResult :=
  {| success := true; error := None; tx_hash := Some h;
     block_number := Some (blockNumber r); gas_used := Some (gasUsed r);
     receipt := Some r; repo_id := None |}.

Definition with_repo_id (d : TxResult) (id : Z) : TxResult :=
  {| success := success d; error := error d; tx_hash := tx_hash d;
     block_number := block_number d; gas_used := gas_used d;
     receipt := receipt d; repo_id := Some id |}.

Section Node.

(** The world outside the process, the built transaction and the signed
    raw transaction are left abstract. *)
Context {W Tx Raw : Type}.

(** The calls that leave the process.  Each takes the world and returns its
    result (or the exception it raises) and the world after the call.  A
    transaction hash is represented by its [hex()] string. *)
Record Node : Type := {
  time_time : W -> Q * W;
  time_sleep : Q -> W -> W;
  get_transaction_count : string -> BlockTag -> W -> Res Z * W;
  sign_transaction : Tx -> option string -> W -> Res Raw * W;
  send_raw_transaction : Raw -> W -> Res string * W;
  wait_for_transaction_receipt : string -> Z -> W -> Res Receipt * W;
  estimate_gas : ContractCall -> string -> W -> Res Z * W;
  gas_price : W -> Res Z * W;
  build_transaction : ContractCall -> TxParams -> W -> Res Tx * W;
  get_logs : string -> W -> Res (list string) * W
}.

(** What the submission code does to the outside, with the outcome. *)
Inductive Event : Type :=
| GetTransactionCount (addr : string) (tag : BlockTag) (r : Res Z)
| TransactionBuilder (nonce : option Z) (built : bool)
| SignTransaction (signed : bool)
| SendRawTransaction (r : Res string)
| WaitForReceipt (h : string) (r : Res Receipt)
| Sleep (seconds : Q)
| GetLogs (returned : bool).

Record State : Type := { self : Interface; world : W }.

Definition on_self (f : Interface -> Interface) (st : State) : State :=
  {| self := f (self st); world := world st |}.

(** A call to the outside, logged with its outcome. *)
Definition call {A} (ev : Res A -> Event) (h : W -> Res A * W) : M Event State A :=
  fun st =>
    let '(r, w') := h (world st) in
    (r, {| self := self st; world := w' |}, [ev r]).

Variable node : Node.

Definition now : M Event State Q :=
  fun st =>
    let '(t, w') := time_time node (world st) in
    (Ok t, {| self := self st; world := w' |}, []).

Definition sleep (seconds : Q) : M Event State unit :=
  fun st =>
    (Ok tt, {| self := self st; world := time_sleep node seconds (world st) |},
     [Sleep seconds]).

(** [self.account.address]: an [AttributeError] when [account] is [None]. *)
Definition account_address : M Event State string :=
  let* st := get in
  match account (self st) with
  | Some a => ret (address a)
  | None => raise (Exn "AttributeError" "'NoneType' object has no attribute 'address'")
  end.

(** [_get_nonce]. *)
Definition _get_nonce (force_refresh : bool) : M Event State (option Z) :=
  let* current_time := now in
  let* st := get in
  let* _ :=
    if force_refresh
       || bool_decide (_nonce_cache (self st) = None)
       || Qgtb (current_time - _last_nonce_update (self st)) 30
    then
      try_catch
        (let* addr := account_address in
         let* n := call (GetTransactionCount addr pending)
                        (get_transaction_count node addr pending) in
         let* _ := modify (on_self (set_nonce_cache (Some n))) in
         modify (on_self (set_last_nonce_update current_time)))
        (fun _ =>
         let* addr := account_address in
         let* n := call (GetTransactionCount addr latest)
                        (get_transaction_count node addr latest) in
         modify (on_self (set_nonce_cache (Some n))))
    else ret tt in
  let* st' := get in
  ret (_nonce_cache (self st')).

(** [_increment_nonce]. *)
Definition _increment_nonce : M Event State unit :=
  modify (on_self (fun i =>
    match _nonce_cache i with
    | Some n => set_nonce_cache (Some (n + 1)) i
    | None => i
    end)).

(** A transaction builder is called with the nonce and talks to the node. *)
Definition Builder : Type := option Z -> W -> Res Tx * W.

(** The [try] block of one iteration of [_send_transaction_with_retry];
    [Some d] is [return d]. *)
Definition attempt_try (transaction_builder : Builder) (attempt : Z)
  : M Event State (option TxResult) :=
  let force_refresh := 0 <? attempt in
  let* nonce := _get_nonce force_refresh in
  let* transaction :=
    call (fun r => TransactionBuilder nonce (is_ok r)) (transaction_builder nonce) in
  let* st := get in
  let* signed_txn :=
    call (fun r => SignTransaction (is_ok r))
         (sign_transaction node transaction (private_key (self st))) in
  let* tx_hash := call SendRawTransaction (send_raw_transaction node signed_txn) in
  let* tx_receipt :=
    call (WaitForReceipt tx_hash) (wait_for_transaction_receipt node tx_hash 300) in
  if status tx_receipt =? 1 then
    let* _ := _increment_nonce in
    ret (Some (success_dict tx_hash tx_receipt))
  else
    ret (Some (failure_dict "Transaction failed (status 0)")).

(** The test of the handler on [str(e)]. *)
Definition is_nonce_error (error_msg : string) : bool :=
  contains "nonce too low" (lower error_msg) || contains "nonce" (lower error_msg).

(** The [except Exception as e] block of the same iteration; [None] is
    falling through to the next iteration. *)
Definition attempt_except (max_retries attempt : Z) (e : exn)
  : M Event State (option TxResult) :=
  let error_msg := str e in
  if is_nonce_error error_msg then
    let* _ := modify (on_self (set_nonce_cache None)) in
    let* _ := sleep 2 in
    ret None
  else if attempt =? max_retries - 1 then
    ret (Some (failure_dict error_msg))
  else
    let* _ := sleep 1 in
    ret None.

Definition attempt_step (transaction_builder : Builder) (max_retries attempt : Z)
  : M Event State (option TxResult) :=
  try_catch (attempt_try transaction_builder attempt)
            (attempt_except max_retries attempt).

(** The default of the parameter [max_retries]. *)
Definition default_max_retries : Z := 3.

(** [_send_transaction_with_retry]. *)
Definition _send_transaction_with_retry (transaction_builder : Builder)
    (max_retries : Z) : M Event State TxResult :=
  for_each (range max_retries)
    (attempt_step transaction_builder max_retries)
    (ret (failure_dict "Max retries exceeded")).

(** The address of the GitHub protection contract ([self.contracts]). *)
Definition github_protection : string := "0x19054030669efBFc413bA3729b63eCfD3Bdc22B5".

(** [_extract_repo_id_from_logs]: one more than the number of logs of the
    contract, and 1 when the query raises. *)
Definition _extract_repo_id_from_logs (tx_receipt : Receipt) : M Event State Z :=
  try_catch
    (let* logs := call (fun r => GetLogs (is_ok r)) (get_logs node github_protection) in
     ret (Z.of_nat (length logs) + 1))
    (fun _ => ret 1).

(** The part the three [build_transaction] closures share: estimate the
    gas, read the gas price, build.  [buffer] is added to the estimate. *)
Definition build_for (function_call : ContractCall) (from : string)
    (buffer chain : Z) : Builder :=
  fun nonce w =>
    match estimate_gas node function_call from w with
    | (Raise e, w1) => (Raise e, w1)
    | (Ok gas_estimate, w1) =>
        match gas_price node w1 with
        | (Raise e, w2) => (Raise e, w2)
        | (Ok price, w2) =>
            build_transaction node function_call
              {| tx_from := from; tx_gas := gas_estimate + buffer;
                 tx_gasPrice := price; tx_nonce := nonce; tx_chainId := chain |} w2
        end
    end.

(** [repo_data[k]]: a [KeyError] when the key is absent. *)
Definition item (repo_data : gmap string string) (k : string) : Res string :=
  match repo_data !! k with
  | Some v => Ok v
  | None => Raise (Exn "KeyError" ("'" +:+ k +:+ "'"))
  end.

Definition newline : string := String (Ascii.ascii_of_nat 10) EmptyString.

(** The [processSubmission] call of a registration. *)
Definition registration_call (repo_data : gmap string string)
    (key_features : list string) : Res ContractCall :=
  match item repo_data "github_url" with
  | Raise e => Raise e
  | Ok url =>
      match item repo_data "repo_hash" with
      | Raise e => Raise e
      | Ok repo_hash =>
          match item repo_data "fingerprint" with
          | Raise e => Raise e
          | Ok fingerprint =>
              Ok (processSubmission 0 0 url repo_hash fingerprint key_features
                    (default "MIT" (repo_data !! "license_type"))
                    (default EmptyString (repo_data !! "ipfs_metadata"))
                    EmptyString 0)
          end
      end
  end.

Definition no_account : TxResult :=
  failure_dict "No account configured for transactions".

(** [register_repository_on_chain]. *)
Definition register_repository_on_chain (repo_data : gmap string string)
  : M Event State TxResult :=
  let* st := get in
  match account (self st) with
  | None => ret no_account
  | Some acct =>
      try_catch
        (let key_features :=
           take 5 (split newline (default EmptyString (repo_data !! "key_features"))) in
         let build_transaction : Builder := fun nonce w =>
           match registration_call repo_data key_features with
           | Raise e => (Raise e, w)
           | Ok function_call =>
               build_for function_call (address acct) 50000 (chain_id (self st)) nonce w
           end in
         let* result := _send_transaction_with_retry build_transaction default_max_retries in
         if success result then
           match receipt result with
           | Some r =>
               let* id := _extract_repo_id_from_logs r in
               ret (with_repo_id result id)
           | None => raise (Exn "KeyError" "'receipt'")
           end
         else ret result)
        (fun e => ret (failure_dict (str e)))
  end.

(** [add_link_to_registry]. *)
Definition add_link_to_registry (github_url license_cid : string)
  : M Event State TxResult :=
  let* st := get in
  match account (self st) with
  | None => ret no_account
  | Some acct =>
      try_catch
        (let build_transaction : Builder :=
           build_for (addLink github_url license_cid) (address acct) 30000
                     (chain_id (self st)) in
         _send_transaction_with_retry build_transaction default_max_retries)
        (fun e => ret (failure_dict (str e)))
  end.

(** [file_dmca_on_chain]. *)
Definition file_dmca_on_chain (infringing_url dmca_cid : string)
  : M Event State TxResult :=
  let* st := get in
  match account (self st) with
  | None => ret no_account
  | Some acct =>
      try_catch
        (let build_transaction : Builder :=
           build_for (fileDMCA infringing_url dmca_cid) (address acct) 30000
                     (chain_id (self st)) in
         _send_transaction_with_retry build_transaction default_max_retries)
        (fun e => ret (failure_dict (str e)))
  end.

End Node.

Arguments Node : clear implicits.
Arguments Event : clear implicits.
Arguments State : clear implicits.
Arguments Builder : clear implicits.

End FilecoinContracts.

(** ** Reading a log of [FilecoinContracts] *)

Module FilecoinLog.
Import Py FilecoinContracts.

(** The calls to [send_raw_transaction]: the submission attempts. *)
Definition submissions (log : list Event) : list (Res string) :=
  omap (fun ev => match ev with SendRawTransaction r => Some r | _ => None end) log.

(** The receipts that [wait_for_transaction_receipt] returned. *)
Definition receipts (log : list Event) : list Receipt :=
  omap (fun ev => match ev with WaitForReceipt _ (Ok r) => Some r | _ => None end) log.

(** The nonces the transaction builder was called with, oldest first. *)
Definition builder_nonces (log : list Event) : list (option Z) :=
  omap (fun ev => match ev with TransactionBuilder n _ => Some n | _ => None end) log.

(** The queries of the account's transaction count. *)
Definition nonce_queries (log : list Event) : list (BlockTag * Res Z) :=
  omap (fun ev => match ev with GetTransactionCount _ t r => Some (t, r) | _ => None end) log.

End FilecoinLog.

(** ** Outcomes of the submission loop *)

Module FilecoinOutcome.
Import Py FilecoinContracts FilecoinLog.

(** What a finished run over the attempts [attempts] can look like: either
    no receipt was ever returned and the result is a failure dict, or the
    run stopped at the first receipt, which is the last event of its log. *)
Definition loop_outcome {W : Type} (attempts : list Z) (d : TxResult)
    (st' : State W) (log : list Event) : Prop :=
  (length (submissions log) <= length attempts)%nat /\
  (length (builder_nonces log) <= length attempts)%nat /\
  ((receipts log = [] /\ exists msg, d = failure_dict msg) \/
   (exists l h rc n,
      log = l ++ [WaitForReceipt h (Ok rc)] /\ receipts l = [] /\
      last (builder_nonces log) = Some (Some n) /\
      d = (if status rc =? 1 then success_dict h rc
           else failure_dict "Transaction failed (status 0)") /\
      (status rc = 1 -> _nonce_cache (self st') = Some (n + 1)) /\
      (Forall (fun a => 0 < a) attempts -> nonce_queries log <> []))).

(** The cache is warm at [st]: the clock read by [_get_nonce] is at most
    30 seconds after the last refresh. *)
Definition warm {W Tx Raw : Type} (node : Node W Tx Raw) (st : State W) : Prop :=
  (fst (time_time node (world st)) - _last_nonce_update (self st) <= 30)%Q.

End FilecoinOutcome.

(** ** A scripted node, to run the model on concrete inputs *)

Module Scenario.
Import Py FilecoinContracts.

(** The world counts the calls to [send_raw_transaction] made so far.  The
    first submission is refused with a nonce error, the later ones are
    mined with status 1.  The node reports 7 pending transactions and the
    clock stands still. *)
Definition node : Node nat (option Z) (option Z) := {|
  time_time := fun w => (0%Q, w);
  time_sleep := fun _ w => w;
  get_transaction_count := fun _ _ w => (Ok 7, w);
  sign_transaction := fun tx _ w => (Ok tx, w);
  send_raw_transaction := fun _ w =>
    match w with
    | O => (Raise (Exn "ValueError" "Nonce too low"), 1%nat)
    | S _ => (Ok "0xabc", S w)
    end;
  wait_for_transaction_receipt := fun _ _ w =>
    (Ok {| status := 1; blockNumber := 10; gasUsed := 21000 |}, w);
  estimate_gas := fun _ _ w => (Ok 21000, w);
  gas_price := fun w => (Ok 1, w);
  build_transaction := fun _ p w => (Ok (tx_nonce p), w);
  get_logs := fun _ w => (Ok [], w)
|}.

Definition builder : Builder nat (option Z) := fun nonce w => (Ok nonce, w).

Definition interface (acct : option Account) (cache : option Z) : Interface := {|
  chain_id := 314159;
  private_key := Some "0x1111";
  account := acct;
  _nonce_cache := cache;
  _last_nonce_update := 0
|}.

Definition me : option Account := Some {| address := "0x742d" |}.

(** A fresh object talking to a node that has seen no submission. *)
Definition fresh : State nat := {| self := interface me None; world := 0%nat |}.

(** A warm cache holding 7, after the refused submission. *)
Definition warmed : State nat := {| self := interface me (Some 7); world := 1%nat |}.

(** Read-only mode: no account. *)
Definition read_only : State nat := {| self := interface None None; world := 0%nat |}.

End Scenario.

(** ** [blockchain_utilities.BlockchainUtils] *)

Module BlockchainUtils.
Import Py.

(** The units [estimate_total_cost] converts to. *)
Inductive Unit : Type := ether | gwei.

Definition unit_value (unit : Unit) : Z :=
  match unit with
  | ether => 10 ^ 18
  | gwei => 10 ^ 9
  end.

Definition MIN_WEI : Z := 0.
Definition MAX_WEI : Z := 2 ^ 256 - 1.

(** [Web3.from_wei] of the web3 library: zero is returned as it is, a
    value outside [0 .. 2**256 - 1] is a [ValueError], any other is divided
    by the value of the unit.  The division is made with 999 digits, enough
    to be exact on this range: the decimal it returns is a rational here. *)
Definition from_wei (number : Z) (unit : Unit) : Res Q :=
  if number =? 0 then Ok 0%Q
  else if (number <? MIN_WEI) || (MAX_WEI <? number)
  then Raise (Exn "ValueError" "value must be between 1 and 2**256 - 1")
  else Ok (number # Z.to_pos (unit_value unit))%Q.

Section Cost.

(** [float] is the conversion of a decimal to a Python float. *)
Context {Float : Type}.
Variable float : Q -> Float.

(** The dict returned by [estimate_total_cost]. *)
Record CostEstimate : Type := {
  gas_used : Z;
  gas_price_wei : Z;
  gas_price_gwei : Q;
  total_cost_wei : Z;
  total_cost_fil : Float;
  total_cost_tfil : Float
}.

(** [estimate_total_cost]. *)
Definition estimate_total_cost (gas_used gas_price : Z) : Res CostEstimate :=
  let cost_wei := gas_used * gas_price in
  match from_wei cost_wei ether with
  | Raise e => Raise e
  | Ok cost_fil =>
      match from_wei gas_price gwei with
      | Raise e => Raise e
      | Ok price_gwei =>
          Ok {| gas_used := gas_used;
                gas_price_wei := gas_price;
                gas_price_gwei := price_gwei;
                total_cost_wei := cost_wei;
                total_cost_fil := float cost_fil;
                total_cost_tfil := float cost_fil |}
      end
  end.

End Cost.

Arguments CostEstimate : clear implicits.

Section Retry.

(** [func] is any callable without arguments: it reads and changes the
    world, and returns a value or raises.  [time_sleep] is [time.sleep] of
    the platform: it returns, or raises ([ValueError] for a negative length,
    [OverflowError] for a length its clock cannot hold, about 9.2e9
    seconds). *)
Context {W A : Type}.
Variable func : W -> Res A * W.
Variable time_sleep : Q -> W -> Res unit * W.

Inductive Event : Type :=
| Called (r : Res A)
| Sleep (seconds : Q).

(** [time.sleep(seconds)]: the call is logged with its length, whatever
    it answers. *)
Definition sleep (seconds : Q) : M Event W unit :=
  fun w => let '(r, w') := time_sleep seconds w in (r, w', [Sleep seconds]).

Definition call_func : M Event W A :=
  fun w => let '(r, w') := func w in (r, w', [Called r]).

(** [delay * 2 ** attempt] as a number. *)
Definition backoff (delay : Q) (attempt : Z) : Q :=
  (delay * inject_Z (2 ^ attempt))%Q.

(** [time.sleep] takes the waits of a run of at most [max_retries]
    attempts: it refuses none of them. *)
Definition sleep_takes (max_retries : Z) (delay : Q) : Prop :=
  forall (j : Z) (w0 : W),
    0 <= j < max_retries - 1 ->
    exists w1, time_sleep (backoff delay j) w0 = (Ok tt, w1).

(** [delay * (2 ** attempt)] as the source computes it, [delay] being a
    float: the int [2 ** attempt] is converted to a float for the product,
    which is an [OverflowError] from [2 ** 1024] on.  Below that bound the
    product by a power of two is exact; one beyond the largest float is
    [inf], a length that [time.sleep] refuses. *)
Definition wait_time (delay : Q) (attempt : Z) : Res Q :=
  if 1024 <=? attempt
  then Raise (Exn "OverflowError" "int too large to convert to float")
  else Ok (backoff delay attempt).

(** [retry_transaction].  The function returns [None] when the loop ends
    without a [return], which is the value [Ok None] here.  What the handler
    raises leaves the function. *)
Definition retry_transaction (max_retries : Z) (delay : Q) : M Event W (option A) :=
  for_each (range max_retries)
    (fun attempt =>
       try_catch
         (let* v := call_func in ret (Some (Some v)))
         (fun e =>
            if attempt =? max_retries - 1 then raise e
            else
              match wait_time delay attempt with
              | Raise overflow => raise overflow
              | Ok seconds =>
                  let* _ := sleep seconds in
                  ret None
              end))
    (ret None).

End Retry.

Arguments Event : clear implicits.

(** The calls of [func] in a log, with their outcomes, and the sleeps. *)
Definition calls {A} (log : list (Event A)) : list (Res A) :=
  omap (fun ev => match ev with Called r => Some r | _ => None end) log.

Definition sleeps {A} (log : list (Event A)) : list Q :=
  omap (fun ev => match ev with Sleep q => Some q | _ => None end) log.

Definition raised {A} (r : Res A) : Prop :=
  match r with Raise _ => True | Ok _ => False end.

(** The backoff is fixed when every sleep of the run has the same length. *)
Definition fixed_backoff {A} (log : list (Event A)) : Prop :=
  exists d : Q, Forall (fun q => (q == d)%Q) (sleeps log).

End BlockchainUtils.

(** ** [enhanced_ipfs_manager.EnhancedIPFSManager] *)

Module EnhancedIPFSManager.
Import Py.

(** The fields of the manager that the upload path reads. *)
Record Manager : Type := {
  pinata_api_key : option string;
  pinata_api_secret : option string;
  web3_storage_token : option string;
  local_ipfs_url : string;
  pinata_headers : gmap string string;
  service_priority : list string
}.

(** Truth value of [config.get(k)]: [None] and the empty string are false. *)
Definition truthy (v : option string) : bool :=
  match v with
  | Some s => negb (String.eqb s EmptyString)
  | None => false
  end.

(** [_determine_service_priority]: the list grows by [append]. *)
Definition _determine_service_priority (self : Manager) : list string :=
  let services := [] in
  let services :=
    if truthy (pinata_api_key self) && truthy (pinata_api_secret self)
    then services ++ ["pinata"] else services in
  let services :=
    if truthy (web3_storage_token self) then services ++ ["web3_storage"]
    else services in
  let services := services ++ ["local_ipfs"] in
  let services := services ++ ["local_file"] in
  services.

(** [__init__]: read the configuration, then fix the service order. *)
Definition init (config : gmap string string) : Manager :=
  let key := config !! "PINATA_API_KEY" in
  let secret := config !! "PINATA_API_SECRET" in
  let headers : gmap string string :=
    if truthy key && truthy secret
    then <["pinata_api_key" := default EmptyString key]>
           (<["pinata_secret_api_key" := default EmptyString secret]> ∅)
    else ∅ in
  let self := {|
    pinata_api_key := key;
    pinata_api_secret := secret;
    web3_storage_token := config !! "WEB3_STORAGE_TOKEN";
    local_ipfs_url := default "http://localhost:5001" (config !! "LOCAL_IPFS_URL");
    pinata_headers := headers;
    service_priority := []
  |} in
  {| pinata_api_key := pinata_api_key self;
     pinata_api_secret := pinata_api_secret self;
     web3_storage_token := web3_storage_token self;
     local_ipfs_url := local_ipfs_url self;
     pinata_headers := pinata_headers self;
     service_priority := _determine_service_priority self |}.

Section Storage.
Context {W : Type}.

(** The file system and the three HTTP services.  [pin_file_to_ipfs] is the
    POST to Pinata followed by the availability check, [web3_upload] and
    [local_add] are the POSTs to Web3.Storage and to the local node; each
    returns the content identifier or raises. *)
Record Storage : Type := {
  path_exists : string -> W -> bool * W;
  abspath : string -> W -> Res string * W;
  pin_file_to_ipfs : Manager -> string -> option (gmap string string) -> W -> Res string * W;
  web3_upload : Manager -> string -> W -> Res string * W;
  local_add : Manager -> string -> W -> Res string * W
}.

(** What [upload_to_ipfs] does: the existence check, and each service it
    tried with the outcome. *)
Inductive Event : Type :=
| PathExists (file_path : string) (found : bool)
| Tried (service : string) (r : Res string).

Variable storage : Storage.

(** [_upload_to_pinata]: refused without the credential headers. *)
Definition _upload_to_pinata (self : Manager) (file_path : string)
    (metadata : option (gmap string string)) : W -> Res string * W :=
  fun w =>
    if bool_decide (pinata_headers self = ∅)
    then (Raise (Exn "ValueError" "Pinata credentials not configured"), w)
    else pin_file_to_ipfs storage self file_path metadata w.

(** [_upload_to_web3_storage]: refused without a token. *)
Definition _upload_to_web3_storage (self : Manager) (file_path : string)
    (metadata : option (gmap string string)) : W -> Res string * W :=
  fun w =>
    if negb (truthy (web3_storage_token self))
    then (Raise (Exn "ValueError" "Web3.Storage token not configured"), w)
    else web3_upload storage self file_path w.

(** [_upload_to_local_ipfs]. *)
Definition _upload_to_local_ipfs (self : Manager) (file_path : string)
    (metadata : option (gmap string string)) : W -> Res string * W :=
  local_add storage self file_path.

(** [_fallback_local_storage]: the absolute path behind [local://]. *)
Definition _fallback_local_storage (self : Manager) (file_path : string)
  : W -> Res string * W :=
  fun w =>
    match abspath storage file_path w with
    | (Ok p, w') => (Ok ("local://" +:+ p), w')
    | (Raise e, w') => (Raise e, w')
    end.

Definition tried (service : string) (up : W -> Res string * W) : M Event W string :=
  fun w => let '(r, w') := up w in (r, w', [Tried service r]).

(** The body of the loop of [upload_to_ipfs]: [Some h] is [return h],
    [None] is [continue]. *)
Definition iteration (self : Manager) (file_path : string)
    (metadata : option (gmap string string)) (service : string)
  : M Event W (option string) :=
  try_catch
    (if String.eqb service "pinata" then
       let* h := tried service (_upload_to_pinata self file_path metadata) in
       ret (Some h)
     else if String.eqb service "web3_storage" then
       let* h := tried service (_upload_to_web3_storage self file_path metadata) in
       ret (Some h)
     else if String.eqb service "local_ipfs" then
       let* h := tried service (_upload_to_local_ipfs self file_path metadata) in
       ret (Some h)
     else if String.eqb service "local_file" then
       let* h := tried service (_fallback_local_storage self file_path) in
       ret (Some h)
     else ret None)
    (fun _ => ret None).

(** [upload_to_ipfs]. *)
Definition upload_to_ipfs (self : Manager) (file_path : string)
    (metadata : option (gmap string string)) : M Event W string :=
  let* found :=
    (fun w => let '(b, w') := path_exists storage file_path w in
              (Ok b, w', [PathExists file_path b])) in
  if negb found then
    raise (Exn "FileNotFoundError" ("File not found: " +:+ file_path))
  else
    for_each (service_priority self)
      (iteration self file_path metadata)
      (raise (Exn "Exception" "All IPFS upload methods failed")).

(** What a service answers when it is asked: the call of the storage
    behind its name, the absolute path behind [local://] for the last. *)
Definition service_answer (self : Manager) (file_path : string)
    (metadata : option (gmap string string)) (service : string)
  : W -> Res string * W :=
  if String.eqb service "pinata" then pin_file_to_ipfs storage self file_path metadata
  else if String.eqb service "web3_storage" then web3_upload storage self file_path
  else if String.eqb service "local_ipfs" then local_add storage self file_path
  else fun w =>
         match abspath storage file_path w with
         | (Ok p, w') => (Ok ("local://" +:+ p), w')
         | (Raise e, w') => (Raise e, w')
         end.

(** The attempts [tries] are the answers of the services named, asked one
    after the other from the world [w]: each is asked in the world the one
    before left, and the last leaves [w']. *)
Fixpoint served (self : Manager) (file_path : string)
    (metadata : option (gmap string string)) (w : W)
    (tries : list (string * Res string)) (w' : W) : Prop :=
  match tries with
  | [] => w' = w
  | (service, r) :: rest =>
      (service_answer self file_path metadata service w).1 = r /\
      served self file_path metadata
             (service_answer self file_path metadata service w).2 rest w'
  end.

End Storage.

Arguments Storage : clear implicits.

(** The services a log shows as tried, in order, with their outcomes. *)
Definition attempts (log : list Event) : list (string * Res string) :=
  omap (fun ev => match ev with Tried s r => Some (s, r) | _ => None end) log.

Definition failed (a : string * Res string) : Prop :=
  match a.2 with Raise _ => True | Ok _ => False end.

(** The four service names the loop knows. *)
Definition known (service : string) : Prop :=
  In service ["pinata"; "web3_storage"; "local_ipfs"; "local_file"].

(** The order the specification gives for a configuration. *)
Definition expected_priority (config : gmap string string) : list string :=
  (if truthy (config !! "PINATA_API_KEY") && truthy (config !! "PINATA_API_SECRET")
   then ["pinata"] else [])
  ++ (if truthy (config !! "WEB3_STORAGE_TOKEN") then ["web3_storage"] else [])
  ++ ["local_ipfs"; "local_file"].

(** A storage where Pinata is down and Web3.Storage answers; the world
    counts the uploads tried. *)
Definition demo_storage : Storage nat := {|
  path_exists := fun p w => (String.eqb p "/tmp/license.pdf", w);
  abspath := fun p w => (Ok p, w);
  pin_file_to_ipfs := fun _ _ _ w => (Raise (Exn "HTTPError" "503 Server Error"), S w);
  web3_upload := fun _ _ w => (Ok "bafybeigdyrzt5sfp7udm7hu76uh7y26nf3efuylqabf3oclgtqy55fbzdi", S w);
  local_add := fun _ _ w => (Raise (Exn "ConnectionError" "connection refused"), S w)
|}.

Definition demo_config : gmap string string :=
  <["PINATA_API_KEY" := "key"]>
    (<["PINATA_API_SECRET" := "secret"]> (<["WEB3_STORAGE_TOKEN" := "token"]> ∅)).

End EnhancedIPFSManager.

(** ** [complete_filecoin_agent.CompleteFilecoinAgent]: scan and bounty *)

Module Agent.
Import Py.

(** A registered repository, as read from the chain. *)
Record Repo : Type := {
  id : Z;
  github_url : string;
  key_features : option string
}.

(** A search hit. *)
Record SimilarRepo : Type := { url : string }.

(** The dict returned by [compare_repository_code]; the score key may be
    absent. *)
Record Comparison : Type := {
  similarity_score : option Q;
  evidence : list string
}.

(** [comparison.get('similarity_score', 0)]. *)
Definition score_of (comparison : Comparison) : Q :=
  default 0%Q (similarity_score comparison).

(** The dict returned by [_generate_and_file_dmca]. *)
Inductive DmcaResult : Type :=
| DmcaFiled (dmca_id ipfs_hash : string)
| DmcaFailed (error : string).

Definition dmca_success (r : DmcaResult) : bool :=
  match r with DmcaFiled _ _ => true | DmcaFailed _ => false end.

Record Violation : Type := {
  infringing_url : string;
  violation_score : Q;
  dmca_notice_id : string;
  blockchain_filed : bool
}.

(** The dict returned by [scan_and_report_violations]. *)
Inductive ScanResult : Type :=
| ScanDone (repositories_scanned : nat) (violations : list Violation)
    (dmca_notices : list DmcaResult)
| ScanError (error : string).

(** The dict returned by [report_infringement_bounty]. *)
Inductive BountyResult : Type :=
| BountyError (error : string) (minimum_required : option string)
    (details : option DmcaResult)
| BountyClaim (amount : Q) (currency : string) (claim_score : Q)
    (dmca_notice : DmcaResult) (status : string).

(** The threshold [0.7]. *)
Definition threshold : Q := 7 # 10.

Section Services.
Context {W : Type}.

(** The collaborators of the agent: the chain, the GitHub scanner and the
    DMCA pipeline.  [_generate_and_file_dmca] catches its own exceptions and
    always returns a dict. *)
Record Services : Type := {
  _get_repository_by_id : Z -> W -> Res (option Repo) * W;
  _get_all_registered_repositories : W -> Res (list Repo) * W;
  search_similar_repositories : string -> string -> W -> Res (list SimilarRepo) * W;
  compare_repository_code : string -> string -> W -> Res Comparison * W;
  _generate_and_file_dmca : Repo -> string -> Comparison -> W -> DmcaResult * W
}.

(** String formatting of the source: [f'{repo_id}'] and [f'{score:.2%}']. *)
Variable format_int : Z -> string.
Variable format_percent : Q -> string.

Inductive Event : Type :=
| Compared (original other : string) (r : Res Comparison)
| GeneratedDMCA (original infringing : string) (r : DmcaResult).

Variable services : Services.

Definition quiet {A} (h : W -> Res A * W) : M Event W A :=
  fun w => let '(r, w') := h w in (r, w', []).

Definition compare (original other : string) : M Event W Comparison :=
  fun w =>
    let '(r, w') := compare_repository_code services original other w in
    (r, w', [Compared original other r]).

Definition generate_dmca (repo : Repo) (infringing : string) (c : Comparison)
  : M Event W DmcaResult :=
  fun w =>
    let '(r, w') := _generate_and_file_dmca services repo infringing c w in
    (Ok r, w', [GeneratedDMCA (github_url repo) infringing r]).

(** The body of the inner loop of [scan_and_report_violations]; the
    accumulator is the pair [(all_violations, dmca_notices)]. *)
Definition scan_similar (repo : Repo) (similar_repo : SimilarRepo)
    (acc : list Violation * list DmcaResult)
  : M Event W (list Violation * list DmcaResult) :=
  if String.eqb (url similar_repo) (github_url repo) then ret acc
  else
    let* comparison := compare (github_url repo) (url similar_repo) in
    let similarity_score := score_of comparison in
    if Qgtb similarity_score threshold then
      let* dmca_result := generate_dmca repo (url similar_repo) comparison in
      match dmca_result with
      | DmcaFiled dmca_id _ =>
          ret (acc.1 ++ [{| infringing_url := url similar_repo;
                            violation_score := similarity_score;
                            dmca_notice_id := dmca_id;
                            blockchain_filed := true |}],
               acc.2 ++ [dmca_result])
      | DmcaFailed _ => ret acc
      end
    else ret acc.

(** The body of the outer loop. *)
Definition scan_repo (repo : Repo) (acc : list Violation * list DmcaResult)
  : M Event W (list Violation * list DmcaResult) :=
  let* similar_repos :=
    quiet (search_similar_repositories services (github_url repo)
             (default EmptyString (key_features repo))) in
  fold_each similar_repos (scan_similar repo) acc.

(** [if repo_id:]: [None] and 0 are false. *)
Definition given (repo_id : option Z) : option Z :=
  match repo_id with
  | Some n => if n =? 0 then None else Some n
  | None => None
  end.

(** The part of [scan_and_report_violations] that follows the choice of
    [repos]. *)
Definition scan_repos (repos : list Repo) : M Event W ScanResult :=
  match repos with
  | [] => ret (ScanError "No repositories found to scan")
  | _ =>
      let* acc := fold_each repos scan_repo ([], []) in
      ret (ScanDone (length repos) acc.1 acc.2)
  end.

(** [scan_and_report_violations]. *)
Definition scan_and_report_violations (repo_id : option Z) : M Event W ScanResult :=
  try_catch
    (match given repo_id with
     | Some n =>
         let* found := quiet (_get_repository_by_id services n) in
         match found with
         | None => ret (ScanError ("Repository " +:+ format_int n +:+ " not found"))
         | Some repo => scan_repos [repo]
         end
     | None =>
         let* repos := quiet (_get_all_registered_repositories services) in
         scan_repos repos
     end)
    (fun e => ret (ScanError (str e))).

(** [_find_best_matching_repo]: manual specification is required. *)
Definition _find_best_matching_repo (infringing : string) : option Z := None.

(** [_calculate_bounty_amount]: [1.0 * min(2.0, score * 2)]. *)
Definition _calculate_bounty_amount (score : Q) : Q :=
  let multiplier := if Qgtb (score * 2) 2 then 2%Q else (score * 2)%Q in
  (1 * multiplier)%Q.

Definition similarity_too_low (score : Q) : BountyResult :=
  BountyError ("Similarity too low for bounty claim: " +:+ format_percent score)
              (Some "70%") None.

(** The part of [report_infringement_bounty] that follows the choice of
    the original repository id. *)
Definition claim_for (infringing : string) (n : Z) : M Event W BountyResult :=
  let* original_repo := quiet (_get_repository_by_id services n) in
  match original_repo with
  | None =>
      ret (BountyError ("Repository " +:+ format_int n +:+ " not found") None None)
  | Some original_repo =>
      let* comparison := compare (github_url original_repo) infringing in
      let similarity_score := score_of comparison in
      if Qgtb threshold similarity_score then
        ret (similarity_too_low similarity_score)
      else
        let* dmca_result := generate_dmca original_repo infringing comparison in
        if negb (dmca_success dmca_result) then
          ret (BountyError "Failed to generate DMCA notice" None (Some dmca_result))
        else
          let bounty_amount := _calculate_bounty_amount similarity_score in
          ret (BountyClaim bounty_amount "tFIL" similarity_score dmca_result
                           "pending_verification")
  end.

(** [report_infringement_bounty]. *)
Definition report_infringement_bounty (infringing : string)
    (original_repo_id : option Z) : M Event W BountyResult :=
  try_catch
    (match given original_repo_id with
     | Some n => claim_for infringing n
     | None =>
         match given (_find_best_matching_repo infringing) with
         | Some n => claim_for infringing n
         | None =>
             ret (BountyError "No matching registered repository found" None None)
         end
     end)
    (fun e => ret (BountyError (str e) None None)).

End Services.

Arguments Services : clear implicits.

(** The repositories a log shows as compared above, at or above, and below
    the threshold, and those the DMCA pipeline [_generate_and_file_dmca] was
    run for, whatever it answered, in order. *)
Definition compared_where (p : Q -> bool) (log : list Event) : list (string * string) :=
  omap (fun ev =>
          match ev with
          | Compared o u (Ok c) => if p (score_of c) then Some (o, u) else None
          | _ => None
          end) log.


Definition not_below_threshold : list Event -> list (string * string) :=
  compared_where (fun s => negb (Qgtb threshold s)).


Definition dmca_generated (log : list Event) : list (string * string) :=
  omap (fun ev =>
          match ev with
          | GeneratedDMCA o u _ => Some (o, u)
          | _ => None
          end) log.








End Agent.

(** ** More readings of a log of [FilecoinContracts] *)

Module FilecoinFrame.
Import Py FilecoinContracts.

(** The lengths of the calls to [time.sleep], oldest first. *)
Definition sleeps (log : list Event) : list Q :=
  omap (fun ev => match ev with Sleep q => Some q | _ => None end) log.

(** The calls to [sign_transaction]. *)
Definition signatures (log : list Event) : list bool :=
  omap (fun ev => match ev with SignTransaction b => Some b | _ => None end) log.

(** The calls to the transaction builder: did it return a transaction? *)
Definition builds (log : list Event) : list bool :=
  omap (fun ev => match ev with TransactionBuilder _ b => Some b | _ => None end) log.

(** The transaction counts the node answered. *)
Definition node_answers (log : list Event) : list Z :=
  omap (fun ev => match ev with GetTransactionCount _ _ (Ok n) => Some n | _ => None end)
       log.

(** The fields the submission code only reads. *)
Definition same_identity (a b : Interface) : Prop :=
  chain_id a = chain_id b /\ private_key a = private_key b /\ account a = account b.

(** Where a cached nonce can come from when nothing was mined: it was
    dropped, it is the one the run started with, or the node gave it during
    the run. *)
Definition cache_provenance (before : option Z) (log : list Event)
    (after : option Z) : Prop :=
  after = None \/ after = before \/
  exists n, In n (node_answers log) /\ after = Some n.

End FilecoinFrame.

(** ** More Python string operations *)

Module PyStrMore.
Import PyStr.

(** [c.isspace()] for a character below 256: tab to carriage return, the
    four separators 28..31, the space, NEL (133) and the no-break space
    (160). *)
Definition is_space (c : ascii) : bool :=
  let n := Ascii.N_of_ascii c in
  ((9 <=? n) && (n <=? 13) || (28 <=? n) && (n <=? 32) || (n =? 133) || (n =? 160))%N.

(** [s.lstrip()]. *)
Fixpoint lstrip (s : string) : string :=
  match s with
  | EmptyString => EmptyString
  | String c s' => if is_space c then lstrip s' else s
  end.

(** [s.rstrip()]. *)
Fixpoint rstrip (s : string) : string :=
  match s with
  | EmptyString => EmptyString
  | String c s' =>
      match rstrip s' with
      | EmptyString => if is_space c then EmptyString else String c EmptyString
      | r => String c r
      end
  end.

(** [s.strip()]. *)
Definition strip (s : string) : string := lstrip (rstrip s).

(** [s[:n]]. *)
Fixpoint prefix_of (n : nat) (s : string) : string :=
  match n, s with
  | S k, String c s' => String c (prefix_of k s')
  | _, _ => EmptyString
  end.

(** [s[n:]]. *)
Fixpoint suffix_from (n : nat) (s : string) : string :=
  match n, s with
  | S k, String _ s' => suffix_from k s'
  | _, _ => s
  end.

(** The truth value of a string: non-empty. *)
Definition nonempty (s : string) : bool :=
  match s with EmptyString => false | String _ _ => true end.

(** The first and the last character, when there is one. *)
Definition first_char (s : string) : option ascii :=
  match s with EmptyString => None | String c _ => Some c end.

Fixpoint last_char (s : string) : option ascii :=
  match s with
  | EmptyString => None
  | String c EmptyString => Some c
  | String _ s' => last_char s'
  end.

End PyStrMore.

(** ** [blockchain_utilities]: the pure helpers *)

Module BlockchainHelpers.
Import PyStr PyStrMore.

(** The argument of [format_key_features]: a string, a list (of strings),
    or another object, given by its [str()]. *)
Inductive Features : Type :=
| FeatureText (features : string)
| FeatureList (features : list string)
| FeatureOther (printed : string).

Definition newline : string := String (Ascii.ascii_of_nat 10) EmptyString.

(** [format_key_features]. *)
Definition format_key_features (features : Features) : list string :=
  match features with
  | FeatureText s =>
      let feature_list :=
        map strip (List.filter (fun f => nonempty (strip f)) (split newline s)) in
      map (prefix_of 100) (take 5 feature_list)
  | FeatureList l => map (prefix_of 100) (take 5 l)
  | FeatureOther printed => [prefix_of 100 printed]
  end.

(** [SubmissionTypeEnum.get_name]. *)
Definition get_name (value : Z) : string :=
  if value =? 0 then "Register"
  else if value =? 1 then "ReportViolation"
  else if value =? 2 then "UpdateLicense"
  else "Unknown".

(** [SubmissionTypeEnum.validate]. *)
Definition validate (value : Z) : bool :=
  (value =? 0) || (value =? 1) || (value =? 2).

(** The digits of base 16. *)
Definition hex_digit (c : ascii) : bool :=
  let n := Ascii.N_of_ascii c in
  ((48 <=? n) && (n <=? 57) || (97 <=? n) && (n <=? 102) || (65 <=? n) && (n <=? 70))%N.

Fixpoint all_hex (s : string) : bool :=
  match s with
  | EmptyString => true
  | String c s' => hex_digit c && all_hex s'
  end.

(** The white space [int()] skips around a number: tab to carriage return
    and the space, and above 127 the characters that are Unicode spaces
    (NEL and the no-break space). *)
Definition int_space (c : ascii) : bool :=
  let n := Ascii.N_of_ascii c in
  ((9 <=? n) && (n <=? 13) || (n =? 32) || (n =? 133) || (n =? 160))%N.

Fixpoint skip_spaces (s : string) : string :=
  match s with
  | EmptyString => EmptyString
  | String c s' => if int_space c then skip_spaces s' else s
  end.

Fixpoint all_spaces (s : string) : bool :=
  match s with
  | EmptyString => true
  | String c s' => int_space c && all_spaces s'
  end.

(** An optional sign. *)
Definition skip_sign (s : string) : string :=
  match s with
  | String c s' => if Ascii.eqb c "+" || Ascii.eqb c "-" then s' else s
  | EmptyString => s
  end.

(** An optional [0x] or [0X], after which one underscore is allowed. *)
Definition skip_prefix (s : string) : string :=
  match s with
  | String c0 (String c1 s') =>
      if Ascii.eqb c0 "0" && (Ascii.eqb c1 "x" || Ascii.eqb c1 "X") then
        match s' with
        | String c2 s'' => if Ascii.eqb c2 "_" then s'' else s'
        | EmptyString => s'
        end
      else s
  | _ => s
  end.

(** The run of digits and underscores: no two underscores in a row, none at
    the end; [consumed] tells whether a character was taken.  The result is
    what follows the run, or [None] when the run is refused. *)
Fixpoint scan_digits (prev_underscore consumed : bool) (s : string) : option string :=
  match s with
  | EmptyString =>
      if prev_underscore then None else if consumed then Some EmptyString else None
  | String c s' =>
      if Ascii.eqb c "_" then
        if prev_underscore then None else scan_digits true true s'
      else if hex_digit c then scan_digits false true s'
      else if prev_underscore then None
      else if consumed then Some s else None
  end.

(** Does [int(s, 16)] return (rather than raise [ValueError])?  Spaces,
    sign, prefix, then a non-empty run of digits that does not start with
    an underscore, then spaces to the end. *)
Definition int16_parses (s : string) : bool :=
  let s := skip_prefix (skip_sign (skip_spaces s)) in
  match s with
  | String c _ =>
      if Ascii.eqb c "_" then false
      else match scan_digits false false s with
           | Some rest => all_spaces rest
           | None => false
           end
  | EmptyString => false
  end.

(** [validate_ethereum_address]. *)
Definition validate_ethereum_address (address : string) : bool :=
  if negb (nonempty address) then false
  else if negb (startswith "0x" address) then false
  else if negb (String.length address =? 42)%nat then false
  else int16_parses (suffix_from 2 address).

End BlockchainHelpers.

(** ** [enhanced_ipfs_manager]: URLs and the availability check *)

Module IPFSAccess.
Import PyStr PyStrMore Py IPFSUtils.

(** [s.rstrip('/')]. *)
Fixpoint rstrip_slash (s : string) : string :=
  match s with
  | EmptyString => EmptyString
  | String c s' =>
      match rstrip_slash s' with
      | EmptyString => if Ascii.eqb c "/" then EmptyString else String c EmptyString
      | r => String c r
      end
  end.

(** [sep.join(parts)]. *)
Fixpoint join (sep : string) (parts : list string) : string :=
  match parts with
  | [] => EmptyString
  | [p] => p
  | p :: ps => p +:+ sep +:+ join sep ps
  end.

(** [s.replace(old, new)] for a non-empty [old]: the pieces between the
    occurrences of [old], joined by [new]. *)
Definition replace (old new s : string) : string := join new (split old s).

(** [get_ipfs_url]; [preferred_gateway] is [None] or a string, and the
    empty string counts as none. *)
Definition get_ipfs_url (ipfs_hash : string) (preferred_gateway : option string)
  : Res string :=
  if negb (validate_ipfs_hash ipfs_hash)
  then Raise (Exn "ValueError" ("Invalid IPFS hash: " +:+ ipfs_hash))
  else if startswith "local://" ipfs_hash then Ok ipfs_hash
  else
    match preferred_gateway with
    | Some g =>
        if nonempty g then Ok (rstrip_slash g +:+ "/ipfs/" +:+ ipfs_hash)
        else Ok ("https://ipfs.io/ipfs/" +:+ ipfs_hash)
    | None => Ok ("https://ipfs.io/ipfs/" +:+ ipfs_hash)
    end.

Section Availability.
Context {W : Type}.

(** [requests.head] returns the status code or raises (a timeout or any
    other exception); [os.path.exists] and [time.sleep] as before. *)
Record Web : Type := {
  head : string -> Z -> W -> Res Z * W;
  file_exists : string -> W -> bool * W;
  pause : Q -> W -> W
}.

Inductive Event : Type :=
| Head (gateway_url : string) (r : Res Z)
| Exists (file_path : string) (found : bool)
| Slept (seconds : Q).

Variable web : Web.

(** The body of the inner loop: [Some (Some True)] is [return True],
    [None] goes on with the next gateway. *)
Definition probe (timeout : Z) (gateway_url : string)
  : M Event W (option (option bool)) :=
  try_catch
    (let* status_code :=
       (fun w => let '(r, w') := head web gateway_url timeout w in
                 (r, w', [Head gateway_url r])) in
     if status_code =? 200 then ret (Some (Some true))
     else if status_code =? 404 then ret None
     else ret None)
    (fun _ => ret None).

(** The body of the outer loop: the first two gateways, then a pause of 5
    seconds unless this was the last attempt. *)
Definition verification_attempt (gateways : list string) (max_retries timeout : Z)
    (attempt : Z) : M Event W (option bool) :=
  for_each (take 2 gateways) (probe timeout)
    (if attempt <? max_retries - 1 then
       let* _ := (fun w => (Ok tt, pause web 5 w, [Slept 5])) in
       ret None
     else ret None).

(** [_verify_ipfs_content_with_retry]. *)
Definition _verify_ipfs_content_with_retry (ipfs_hash : string)
    (max_retries timeout : Z) : M Event W bool :=
  if negb (validate_ipfs_hash ipfs_hash) then ret false
  else if startswith "local://" ipfs_hash then
    let file_path := replace "local://" EmptyString ipfs_hash in
    fun w => let '(b, w') := file_exists web file_path w in
             (Ok b, w', [Exists file_path b])
  else
    let gateways := generate_ipfs_urls ipfs_hash in
    for_each (range max_retries)
      (verification_attempt gateways max_retries timeout)
      (ret false).

(** [_verify_ipfs_content]: one attempt. *)
Definition _verify_ipfs_content (ipfs_hash : string) (timeout : Z) : M Event W bool :=
  _verify_ipfs_content_with_retry ipfs_hash 1 timeout.

End Availability.

Arguments Web : clear implicits.

(** The HEAD requests of a log, and its pauses. *)
Definition heads (log : list Event) : list (string * Res Z) :=
  omap (fun ev => match ev with Head u r => Some (u, r) | _ => None end) log.

Definition pauses (log : list Event) : list Q :=
  omap (fun ev => match ev with Slept q => Some q | _ => None end) log.

Definition is_200 (r : Res Z) : bool :=
  match r with Ok code => code =? 200 | Raise _ => false end.

(** A request that was answered with status 200. *)
Definition answered_200 (h : string * Res Z) : Prop :=
  h.2 = Ok 200.

End IPFSAccess.

(** ** Concrete inputs for the utilities *)

Module UtilsScenario.
Import Py BlockchainUtils.

(** A callable that fails every time; the world counts its calls. *)
Definition always_fails (w : nat) : Res Z * nat :=
  (Raise (Exn "ConnectionError" "node unreachable"), S w).

(** A callable that fails once and then returns 42. *)
Definition fails_once (w : nat) : Res Z * nat :=
  match w with
  | O => (Raise (Exn "ConnectionError" "node unreachable"), 1%nat)
  | S _ => (Ok 42, S w)
  end.

(** A clock in the manner of [time.sleep]: it refuses a negative length
    and one beyond 9223372036 seconds, and returns otherwise. *)
Definition demo_sleep (seconds : Q) (w : nat) : Res unit * nat :=
  if Qgtb 0 seconds
  then (Raise (Exn "ValueError" "sleep length must be non-negative"), w)
  else if Qgtb seconds 9223372036
  then (Raise (Exn "OverflowError" "timestamp too large to convert to C _PyTime_t"), w)
  else (Ok tt, w).

End UtilsScenario.

(** ** [complete_filecoin_agent]: suggestions and queries *)

Module AgentMore.
Import Py Agent.

(** The invariant of the two lists [scan_and_report_violations] builds:
    one violation per notice, every violation above the threshold and
    flagged as filed, every notice a success. *)
Definition well_formed (acc : list Violation * list DmcaResult) : Prop :=
  length acc.1 = length acc.2 /\
  Forall (fun v => (threshold < violation_score v)%Q /\ blockchain_filed v = true) acc.1 /\
  Forall (fun n => dmca_success n = true) acc.2.

(** A step of the scan keeps the lists well formed and adds at most one
    notice per DMCA generated. *)
Definition grows (acc acc' : list Violation * list DmcaResult)
    (log : list Event) : Prop :=
  (well_formed acc -> well_formed acc') /\
  (length acc'.2 <= length acc.2 + length (dmca_generated log))%nat.

(** [_suggest_next_actions]; [score] is
    [similarity.get('overall_similarity', 0)] and [matched] tells whether
    [blockchain_matches] is non-empty. *)
Definition _suggest_next_actions (overall_similarity : option Q) (matched : bool)
  : list string :=
  let actions := [] in
  let score := default 0%Q overall_similarity in
  let actions :=
    if Qgtb score (7 # 10)
    then actions ++ ["Generate and file DMCA notice";
                     "Report violation on blockchain";
                     "Gather additional evidence"]
    else actions in
  let actions :=
    if Qgtb score (5 # 10) && negb matched
    then actions ++ ["Register original repository on blockchain";
                     "Generate license documentation"]
    else actions in
  let actions :=
    if matched
    then actions ++ ["Check existing protection status"; "Review license compliance"]
    else actions in
  actions ++ ["Monitor for future violations"].

(** [range(a, b)]. *)
Definition range_from (a b : Z) : list Z :=
  map (fun k => a + Z.of_nat k) (seq 0 (Z.to_nat (b - a))).

Section Chain.
Context {W Repository : Type}.

(** The two read-only contract calls, which return or raise. *)
Record Chain : Type := {
  call_total_repositories : W -> Res Z * W;
  call_get_repository : Z -> W -> Res Repository * W
}.

Inductive Event : Type :=
| AskedTotal (r : Res Z)
| AskedRepository (repo_id : Z) (found : bool).

Variable chain : Chain.

(** [FilecoinContractInterface.get_total_repositories]: 0 when the call
    raises. *)
Definition get_total_repositories : M Event W Z :=
  try_catch
    (fun w => let '(r, w') := call_total_repositories chain w in (r, w', [AskedTotal r]))
    (fun _ => ret 0).

(** [FilecoinContractInterface.get_repository_from_chain]: the repository
    of a [{'success': True, ...}] dict, or [None] for the dict of a
    failure. *)
Definition get_repository_from_chain (repo_id : Z) : M Event W (option Repository) :=
  try_catch
    (fun w => let '(r, w') := call_get_repository chain repo_id w in
              (match r with Ok repo => Ok (Some repo) | Raise e => Raise e end, w',
               [AskedRepository repo_id (is_ok r)]))
    (fun _ => ret None).

(** The dict returned by [query_blockchain_data]. *)
Inductive QueryResult : Type :=
| QueryData (query_type : string) (total_count : Z) (returned_count : nat)
    (data : list Repository)
| QueryError (error : string).

(** [query_blockchain_data]. *)
Definition query_blockchain_data (query_type : string) (limit : Z)
  : M Event W QueryResult :=
  try_catch
    (if String.eqb query_type "repositories" then
       let* total_repos := get_total_repositories in
       let start_id := Z.max 1 (total_repos - limit + 1) in
       let* repositories :=
         fold_each (range_from start_id (total_repos + 1))
           (fun repo_id repositories =>
              let* repo_result := get_repository_from_chain repo_id in
              match repo_result with
              | Some repo => ret (repositories ++ [repo])
              | None => ret repositories
              end)
           [] in
       ret (QueryData "repositories" total_repos (length repositories) repositories)
     else ret (QueryError ("Unknown query type: " +:+ query_type)))
    (fun e => ret (QueryError (str e))).

End Chain.

Arguments Chain : clear implicits.
Arguments QueryResult : clear implicits.

(** The repository ids a log shows as asked for, in order. *)
Definition asked_ids (log : list Event) : list Z :=
  omap (fun ev => match ev with AskedRepository i _ => Some i | _ => None end) log.

(** A chain with three repositories, the second of which cannot be read. *)
Definition demo_chain : Chain nat string := {|
  call_total_repositories := fun w => (Ok 3, S w);
  call_get_repository := fun i w =>
    (if i =? 2 then Raise (Exn "ContractLogicError" "execution reverted")
     else Ok "repository", S w)
|}.

(** Services in which the comparison gives 0.9 and the notice is filed. *)
Definition demo_services : Services nat := {|
  _get_repository_by_id := fun n w =>
    (Ok (Some {| id := n; github_url := "https://github.com/o/r";
                 key_features := None |}), w);
  _get_all_registered_repositories := fun w => (Ok [], w);
  search_similar_repositories := fun _ _ w => (Ok [], w);
  compare_repository_code := fun _ _ w =>
    (Ok {| similarity_score := Some (9 # 10); evidence := [] |}, w);
  _generate_and_file_dmca := fun _ _ _ w => (DmcaFiled "dmca_1" "QmCid", S w)
|}.

End AgentMore.

(** ** [bounty_system.BountySystem] *)

Module BountySystem.
Import Py Agent.

(** A verified report, as stored in [verified_reports]. *)
Record Report : Type := {
  reporter : string;
  original_url : string;
  infringing_url : string;
  report_tx_hash : string
}.

(** An entry of the leaderboard. *)
Record Stat : Type := {
  address : string;
  reports : Z;
  total_earned : Z
}.

(** One turn of the loop of [get_bounty_leaderboard] on the dict
    [reporter_stats], kept in insertion order: a reporter seen for the first
    time enters with two zeros, then both counters go up by one. *)
Fixpoint bump (who : string) (reporter_stats : list Stat) : list Stat :=
  match reporter_stats with
  | [] => [{| address := who; reports := 0 + 1; total_earned := 0 + 1 |}]
  | s :: rest =>
      if String.eqb (address s) who
      then {| address := address s; reports := reports s + 1;
              total_earned := total_earned s + 1 |} :: rest
      else s :: bump who rest
  end.

Definition tally (verified_reports : list Report) : list Stat :=
  fold_left (fun stats r => bump (reporter r) stats) verified_reports [].

(** [sorted(_, key=lambda x: x['reports'], reverse=True)]: a stable sort,
    most reports first; entries with the same count keep their order. *)
Fixpoint insert_by_reports (x : Stat) (l : list Stat) : list Stat :=
  match l with
  | [] => [x]
  | y :: l' => if reports y <=? reports x then x :: l else y :: insert_by_reports x l'
  end.

Definition sort_by_reports (l : list Stat) : list Stat :=
  fold_right insert_by_reports [] l.

(** [get_bounty_leaderboard], on the values of [verified_reports] in
    insertion order. *)
Definition get_bounty_leaderboard (verified_reports : list Report) : list Stat :=
  take 10 (sort_by_reports (tally verified_reports)).

(** The number of reports of one reporter. *)
Definition reports_of (who : string) (verified_reports : list Report) : Z :=
  Z.of_nat (length (List.filter (fun r => String.eqb (reporter r) who) verified_reports)).

(** Most reports first. *)
Definition more_reports (a b : Stat) : Prop := reports b <= reports a.

(** What the loop has established after the reports [done]. *)
Definition tallied (stats : list Stat) (done : list Report) : Prop :=
  List.NoDup (map address stats) /\
  (forall s, In s stats ->
     reports s = reports_of (address s) done /\ total_earned s = reports s /\
     1 <= reports s) /\
  (forall r, In r done -> In (reporter r) (map address stats)).

(** Three verified reports of two reporters. *)
Definition demo_reports : list Report :=
  [ {| reporter := "0xA"; original_url := "o1"; infringing_url := "i1"; report_tx_hash := "t1" |};
    {| reporter := "0xB"; original_url := "o2"; infringing_url := "i2"; report_tx_hash := "t2" |};
    {| reporter := "0xB"; original_url := "o3"; infringing_url := "i3"; report_tx_hash := "t3" |} ].

(** The evidence dict of a claim; the files it names are not looked at. *)
Record Evidence : Type := {
  specific_files : option (list (string * string))
}.

(** The dict returned by [validate_infringement]. *)
Inductive Validation : Type :=
| Validated (is_valid : bool) (score : Q) (found : list string)
    (ai_assessment : string) (confidence : Q) (reason : string)
| NotValidated (error : string).

Definition is_valid_of (v : Validation) : bool :=
  match v with
  | Validated b _ _ _ _ _ => b
  | NotValidated _ => false
  end.

(** [_ai_validate_claim]: a fixed answer. *)
Definition _ai_validate_claim : Q * string * string :=
  (85 # 100,
   "High likelihood of code infringement based on structural similarity",
   "Multiple core functions show identical implementation patterns")%Q.

Section Scanner.
Context {W : Type}.
Variable compare_repository_code : string -> string -> W -> Res Comparison * W.

(** [validate_infringement]. *)
Definition validate_infringement (original infringing : string) (evidence : Evidence)
  : M (Res Comparison) W Validation :=
  try_catch
    (let* comparison_result :=
       (fun w => let '(r, w') := compare_repository_code original infringing w in
                 (r, w', [r])) in
     let similarity_score := score_of comparison_result in
     let '(confidence, assessment, reason) := _ai_validate_claim in
     let is_valid :=
       negb (Qgtb (7 # 10) similarity_score) && Qgtb confidence (8 # 10) in
     ret (Validated is_valid similarity_score (Agent.evidence comparison_result)
                    assessment confidence reason))
    (fun e => ret (NotValidated (str e))).

End Scanner.

End BountySystem.

(** * Properties *)

(** ** Comparisons of rationals *)

Module PyFacts.
Import Py.

Lemma Qgtb_false (a b : Q) : Qgtb a b = false <-> (a <= b)%Q.
Proof.
  unfold Qgtb. rewrite negb_false_iff. apply Qle_bool_iff.
Qed.

Lemma Qgtb_true (a b : Q) : Qgtb a b = true <-> (b < a)%Q.
Proof.
  unfold Qgtb. rewrite negb_true_iff. split.
  - intros H. apply Qnot_le_lt. intros Hle. apply Qle_bool_iff in Hle. congruence.
  - intros H. destruct (Qle_bool a b) eqn:E; [|reflexivity].
    apply Qle_bool_iff in E. exfalso. exact (Qlt_not_le _ _ H E).
Qed.

End PyFacts.

(** ** The nonce cache and the submission loop *)

Module FilecoinFacts.
Import PyStr Py FilecoinContracts FilecoinLog FilecoinOutcome.

Ltac run_m :=
  cbv beta iota delta [bind now get ret try_catch call modify account_address raise
                       sleep self world on_self]; simpl.

Section Facts.
Context {W Tx Raw : Type} (node : Node W Tx Raw).

Lemma get_nonce_cases (force : bool) (st : State W) :
  let '(r, st', log) := _get_nonce node force st in
  submissions log = [] /\ receipts log = [] /\ builder_nonces log = [] /\
  match r with
  | Ok v => v = _nonce_cache (self st') /\ v <> None /\
            (force = true -> nonce_queries log <> [])
  | Raise _ => True
  end.
Proof.
  destruct st as [me w]. unfold _get_nonce. run_m.
  destruct (time_time node w) as [t w1]; run_m.
  destruct (force || bool_decide (_nonce_cache me = None)
            || Qgtb (t - _last_nonce_update me) 30) eqn:Hc; run_m.
  - destruct (account me) as [a|] eqn:Ha; run_m.
    + destruct (get_transaction_count node (address a) pending w1) as [[n|e] w2]; run_m.
      * repeat split; congruence.
      * rewrite Ha; run_m.
        destruct (get_transaction_count node (address a) latest w2) as [[n|e'] w3]; run_m;
          repeat split; congruence.
    + rewrite Ha; run_m. repeat split; congruence.
  - apply orb_false_iff in Hc as [Hc _]. apply orb_false_iff in Hc as [Hf Hc].
    apply bool_decide_eq_false in Hc.
    repeat split; congruence.
Qed.


Lemma attempt_try_cases (tb : Builder W Tx) (attempt : Z) (st : State W) :
  let '(r, st', log) := attempt_try node tb attempt st in
  (length (submissions log) <= 1)%nat /\ (length (builder_nonces log) <= 1)%nat /\
  match r with
  | Ok (Some d) =>
      exists l h rc n,
        log = l ++ [WaitForReceipt h (Ok rc)] /\ receipts l = [] /\
        builder_nonces log = [Some n] /\
        d = (if status rc =? 1 then success_dict h rc
             else failure_dict "Transaction failed (status 0)") /\
        (status rc = 1 -> _nonce_cache (self st') = Some (n + 1)) /\
        (0 < attempt -> nonce_queries log <> [])
  | Ok None => False
  | Raise _ => receipts log = []
  end.
Proof.
  unfold attempt_try.
  cbv beta iota delta [bind].
  pose proof (get_nonce_cases (0 <? attempt) st) as Hn.
  destruct (_get_nonce node (0 <? attempt) st) as [[[v|e] st1] l1].
  2:{ destruct Hn as (Hs & Hr & Hb & _). rewrite Hs, Hb. simpl. repeat split; auto. }
  destruct Hn as (Hs & Hr & Hb & Hv & Hv' & Hq).
  destruct v as [n|]; [|congruence].
  destruct st1 as [me w1]. run_m. simpl in Hv.
  unfold submissions, receipts, builder_nonces in *.
  destruct (tb (Some n) w1) as [[tx|e] w2]; run_m.
  2:{ rewrite !omap_app, ?Hs, ?Hr, ?Hb. simpl. repeat split; auto. }
  destruct (sign_transaction node tx (private_key me) w2) as [[raw|e] w3]; run_m.
  2:{ rewrite !omap_app, ?Hs, ?Hr, ?Hb. simpl. repeat split; auto. }
  destruct (send_raw_transaction node raw w3) as [[h|e] w4]; run_m.
  2:{ rewrite !omap_app, ?Hs, ?Hr, ?Hb. simpl. repeat split; auto. }
  destruct (wait_for_transaction_receipt node h 300 w4) as [[rc|e] w5]; run_m.
  2:{ rewrite !omap_app, ?Hs, ?Hr, ?Hb. simpl. repeat split; auto. }
  assert (Hq' : 0 < attempt ->
                forall tl : list Event, nonce_queries (l1 ++ tl) <> []).
  { intros Ha tl. apply Z.ltb_lt in Ha. specialize (Hq Ha).
    unfold nonce_queries in *. rewrite omap_app.
    intros Hnil. apply app_eq_nil in Hnil as [Hnil _]. contradiction. }
  destruct (status rc =? 1) eqn:Hst; run_m.
  - rewrite !omap_app, ?Hs, ?Hr, ?Hb. simpl. repeat split; auto.
    exists (l1 ++ [TransactionBuilder (Some n) true; SignTransaction true;
                   SendRawTransaction (Ok h)]), h, rc, n.
    rewrite !omap_app, ?Hr, ?Hb, Hst. simpl. repeat split; auto.
    + rewrite <- app_assoc. reflexivity.
    + intros _. rewrite <- Hv. reflexivity.
  - rewrite !omap_app, ?Hs, ?Hr, ?Hb. simpl. repeat split; auto.
    exists (l1 ++ [TransactionBuilder (Some n) true; SignTransaction true;
                   SendRawTransaction (Ok h)]), h, rc, n.
    rewrite !omap_app, ?Hr, ?Hb, Hst. simpl. repeat split; auto.
    + rewrite <- app_assoc. reflexivity.
    + intros H1. apply Z.eqb_neq in Hst. contradiction.
Qed.

Lemma attempt_except_cases (max_retries attempt : Z) (e : exn) (st : State W) :
  exists r st' log,
    attempt_except node max_retries attempt e st = (Ok r, st', log) /\
    submissions log = [] /\ receipts log = [] /\ builder_nonces log = [] /\
    match r with Some d => d = failure_dict (str e) | None => True end.
Proof.
  unfold attempt_except. destruct st as [me w].
  destruct (is_nonce_error (str e)); run_m.
  - eexists _, _, _. repeat split.
  - destruct (attempt =? max_retries - 1); run_m; eexists _, _, _; repeat split.
Qed.

Lemma send_loop_cases (tb : Builder W Tx) (max_retries : Z) (attempts : list Z) :
  forall st : State W,
  exists d st' log,
    for_each attempts (attempt_step node tb max_retries)
      (ret (failure_dict "Max retries exceeded")) st = (Ok d, st', log) /\
    loop_outcome attempts d st' log.
Proof.
  induction attempts as [|attempt rest IH]; intros st.
  - simpl. unfold ret. eexists _, _, _. split; [reflexivity|].
    repeat split; simpl; auto. left. split; eauto.
  - cbn [for_each]. unfold bind at 1. unfold attempt_step at 1. unfold try_catch.
    pose proof (attempt_try_cases tb attempt st) as Ht.
    destruct (attempt_try node tb attempt st) as [[[[d|]|e] st1] l1].
    + (* the try block returned *)
      destruct Ht as (Hs & Hb & l & h & rc & n & Hl & Hr & Hn & Hd & Hc & Hq).
      unfold ret. eexists _, _, _. split; [reflexivity|].
      rewrite app_nil_r. repeat split; simpl; try lia.
      right. exists l, h, rc, n. rewrite Hn. repeat split; auto.
      intros Hall. apply Hq. inversion Hall; assumption.
    + destruct Ht as (_ & _ & []).
    + (* the try block raised *)
      destruct Ht as (Hs & Hb & Hr).
      destruct (attempt_except_cases max_retries attempt e st1)
        as (r & st2 & l2 & He & Hs2 & Hr2 & Hb2 & Hd).
      rewrite He.
      destruct r as [d|].
      * unfold ret. eexists _, _, _. split; [reflexivity|].
        unfold loop_outcome, submissions, receipts, builder_nonces in *.
        rewrite !omap_app, Hs2, Hr2, Hb2, Hr, !app_nil_r. simpl.
        repeat split; try lia. left. split; eauto.
      * destruct (IH st2) as (d & st3 & l3 & Hrun & Hs3 & Hb3 & Hcase).
        rewrite Hrun. eexists _, _, _. split; [reflexivity|].
        unfold loop_outcome, submissions, receipts, builder_nonces in *.
        rewrite !omap_app, Hs2, Hr2, Hb2, Hr, !app_nil_r, !length_app. simpl.
        repeat split; try lia.
        destruct Hcase as [[Hr3 Hd3]|(l & h & rc & n & Hl & Hrl & Hn & Hd3 & Hc & Hq)].
        -- left. auto.
        -- right. exists ((l1 ++ l2) ++ l), h, rc, n.
           rewrite Hl, <- !app_assoc. repeat split; auto.
           ++ rewrite !omap_app, Hr, Hr2, Hrl. reflexivity.
           ++ rewrite last_app, <- Hl, Hn. reflexivity.
           ++ intros Hall. inversion Hall; subst.
              unfold nonce_queries in *. rewrite !omap_app.
              intros Hnil. apply app_eq_nil in Hnil as [_ Hnil].
              apply app_eq_nil in Hnil as [_ Hnil].
              rewrite <- omap_app in Hnil. apply Hq; assumption.
Qed.

Lemma length_range (n : Z) : length (range n) = Z.to_nat n.
Proof. unfold range. rewrite length_map, length_seq. reflexivity. Qed.

Lemma range_pos (n : Z) :
  0 < n -> exists rest, range n = 0 :: rest /\ Forall (fun a => 0 < a) rest.
Proof.
  intros Hn. unfold range.
  destruct (Z.to_nat n) as [|k] eqn:Hk; [lia|].
  exists (map Z.of_nat (seq 1 k)). split; [reflexivity|].
  apply Forall_forall. intros a Ha. apply list_elem_of_In in Ha.
  apply in_map_iff in Ha as (i & <- & Hi). apply in_seq in Hi. lia.
Qed.


Lemma receipts_snoc (l : list Event) (h : string) (rc : Receipt) :
  receipts l = [] -> receipts (l ++ [WaitForReceipt h (Ok rc)]) = [rc].
Proof. intros Hl. unfold receipts in *. rewrite omap_app, Hl. reflexivity. Qed.

(** C1: for every transaction builder and every behaviour of the node,
    [_send_transaction_with_retry] returns a dict and never raises; it calls
    [send_raw_transaction], and the builder, at most [max_retries] times
    (3 times with the default); the dict has
    [success = True] exactly when a receipt with [status == 1] was returned;
    a receipt with another status gives the dict
    [{'success': False, 'error': 'Transaction failed (status 0)'}] and is the
    last event of the run (no further attempt); and a result without success
    is a failure dict with an error message. *)
Theorem send_transaction_with_retry_outcome
    (tb : Builder W Tx) (max_retries : Z) (st : State W) :
  exists d st' log,
    _send_transaction_with_retry node tb max_retries st = (Ok d, st', log) /\
    Z.of_nat (length (submissions log)) <= Z.max 0 max_retries /\
    Z.of_nat (length (builder_nonces log)) <= Z.max 0 max_retries /\
    (max_retries = default_max_retries ->
     (length (submissions log) <= 3)%nat) /\
    (success d = true <-> exists rc, In rc (receipts log) /\ status rc = 1) /\
    (forall rc, In rc (receipts log) -> status rc <> 1 ->
       d = failure_dict "Transaction failed (status 0)" /\
       exists l h, log = l ++ [WaitForReceipt h (Ok rc)]) /\
    (success d = false -> exists msg, d = failure_dict msg).
Proof.
  unfold _send_transaction_with_retry.
  destruct (send_loop_cases tb max_retries (range max_retries) st)
    as (d & st' & log & Hrun & Hs & Hb & Hcase).
  exists d, st', log. split; [exact Hrun|].
  rewrite length_range in Hs, Hb. split; [lia|]. split; [lia|].
  split; [intros ->; unfold default_max_retries in Hs; lia|].
  destruct Hcase as [[Hr [msg ->]]|(l & h & rc0 & n & Hl & Hrl & _ & Hd & _)].
  - rewrite Hr. simpl. split; [|split].
    + split; [discriminate|]. intros (rc & [] & _).
    + intros rc [].
    + eauto.
  - assert (Hrs : receipts log = [rc0]) by (rewrite Hl; apply receipts_snoc, Hrl).
    rewrite Hrs. destruct (status rc0 =? 1) eqn:Hst; subst d.
    + apply Z.eqb_eq in Hst. split; [|split].
      * split; [|reflexivity]. intros _. exists rc0. split; [left; reflexivity|exact Hst].
      * intros rc [<-|[]] Hne. contradiction.
      * simpl. discriminate.
    + apply Z.eqb_neq in Hst. split; [|split].
      * split; [simpl; discriminate|]. intros (rc & [<-|[]] & H1). contradiction.
      * intros rc [<-|[]] _. split; [reflexivity|]. exists l, h. exact Hl.
      * eauto.
Qed.

(** The exact behaviour of [_get_nonce]; [t] is the clock reading. *)
Lemma get_nonce_cached (st : State W) (n : Z) :
  _nonce_cache (self st) = Some n ->
  warm node st ->
  _get_nonce node false st
  = (Ok (Some n), {| self := self st; world := snd (time_time node (world st)) |}, []).
Proof.
  unfold warm. destruct st as [me w]. simpl. intros Hc Hw.
  unfold _get_nonce. run_m.
  destruct (time_time node w) as [t w1]; run_m. simpl in Hw.
  apply PyFacts.Qgtb_false in Hw.
  rewrite Hw, bool_decide_eq_false_2 by congruence. simpl. rewrite Hc. reflexivity.
Qed.


(** C3: [_get_nonce] returns the cached nonce, with no query to the node
    and no change to the object, when [force_refresh] is false, the cache is
    not [None] and at most 30 seconds passed since the last refresh ([t] is
    the clock reading).  Otherwise it asks for the account's [pending]
    transaction count, caches it and records [t] as the time of the refresh;
    when that query raises it asks for the [latest] count and caches it,
    leaving [_last_nonce_update] as it was. *)
Theorem get_nonce_contract (force : bool) (st : State W) (t : Q) (w1 : W) :
  time_time node (world st) = (t, w1) ->
  (force = false -> _nonce_cache (self st) <> None ->
   (t - _last_nonce_update (self st) <= 30)%Q ->
   _get_nonce node force st
   = (Ok (_nonce_cache (self st)), {| self := self st; world := w1 |}, [])) /\
  (force = true \/ _nonce_cache (self st) = None \/
   (30 < t - _last_nonce_update (self st))%Q ->
   forall a, account (self st) = Some a ->
     (forall n w2,
        get_transaction_count node (address a) pending w1 = (Ok n, w2) ->
        _get_nonce node force st
        = (Ok (Some n),
           {| self := set_last_nonce_update t (set_nonce_cache (Some n) (self st));
              world := w2 |},
           [GetTransactionCount (address a) pending (Ok n)])) /\
     (forall e w2 n w3,
        get_transaction_count node (address a) pending w1 = (Raise e, w2) ->
        get_transaction_count node (address a) latest w2 = (Ok n, w3) ->
        _get_nonce node force st
        = (Ok (Some n),
           {| self := set_nonce_cache (Some n) (self st); world := w3 |},
           [GetTransactionCount (address a) pending (Raise e);
            GetTransactionCount (address a) latest (Ok n)]) /\
        _last_nonce_update (set_nonce_cache (Some n) (self st))
        = _last_nonce_update (self st))).
Proof.
  destruct st as [me w]. simpl. intros Ht. split.
  - intros -> Hc Hw. unfold _get_nonce. run_m. rewrite Ht. run_m.
    apply PyFacts.Qgtb_false in Hw.
    rewrite Hw, bool_decide_eq_false_2 by assumption. reflexivity.
  - intros Hcond a Ha.
    assert (Hc : force || bool_decide (_nonce_cache me = None)
                 || Qgtb (t - _last_nonce_update me) 30 = true).
    { destruct Hcond as [->|[Hn|Hl]].
      - reflexivity.
      - rewrite bool_decide_eq_true_2 by assumption. apply orb_true_iff. left.
        apply orb_true_r.
      - apply PyFacts.Qgtb_true in Hl. rewrite Hl. apply orb_true_r. }
    split.
    + intros n w2 Hp. unfold _get_nonce. run_m. rewrite Ht. run_m.
      rewrite Hc, Ha. run_m. rewrite Hp. run_m. reflexivity.
    + intros e w2 n w3 Hp Hl. split; [|reflexivity].
      unfold _get_nonce. run_m. rewrite Ht. run_m.
      rewrite Hc, Ha. run_m. rewrite Hp. run_m. rewrite Ha. run_m.
      rewrite Hl. run_m. reflexivity.
Qed.

(** C2: when the [try] block of an attempt raises an exception whose
    message contains "nonce" in any letter case, the iteration sets
    [_nonce_cache] to [None], sleeps 2 seconds and falls through, so the
    loop goes on from that state; and whatever nonce [_get_nonce] returns
    from there is the answer of a query to the node made in that call. *)
Theorem nonce_error_invalidates_cache
    (tb : Builder W Tx) (max_retries attempt : Z) (rest : list Z)
    (after : M Event (State W) TxResult)
    (st st1 : State W) (e : exn) (log1 : list Event) :
  attempt_try node tb attempt st = (Raise e, st1, log1) ->
  contains "nonce" (lower (str e)) = true ->
  let st2 := {| self := set_nonce_cache None (self st1);
                world := time_sleep node 2 (world st1) |} in
  attempt_step node tb max_retries attempt st = (Ok None, st2, log1 ++ [Sleep 2]) /\
  _nonce_cache (self st2) = None /\
  for_each (attempt :: rest) (attempt_step node tb max_retries) after st
  = (let '(r, s, l) := for_each rest (attempt_step node tb max_retries) after st2 in
     (r, s, (log1 ++ [Sleep 2]) ++ l)) /\
  (forall force v st3 log3,
     _get_nonce node force st2 = (Ok v, st3, log3) ->
     exists addr tag n,
       last log3 = Some (GetTransactionCount addr tag (Ok n)) /\
       v = Some n /\ _nonce_cache (self st3) = Some n).
Proof.
  intros Htry Hmsg st2.
  assert (Hstep : attempt_step node tb max_retries attempt st
                  = (Ok None, st2, log1 ++ [Sleep 2])).
  { unfold attempt_step, try_catch. rewrite Htry.
    unfold attempt_except, is_nonce_error. rewrite Hmsg, orb_true_r.
    destruct st1 as [me1 w1]. run_m. reflexivity. }
  split; [exact Hstep|]. split; [reflexivity|]. split.
  - cbn [for_each]. unfold bind at 1. rewrite Hstep. reflexivity.
  - intros force v st3 log3. subst st2. destruct st1 as [me1 w1].
    unfold _get_nonce. run_m.
    destruct (time_time node (time_sleep node 2 w1)) as [t w2]; run_m.
    rewrite orb_true_r. run_m.
    destruct (account me1) as [a|] eqn:Ha; run_m.
    + destruct (get_transaction_count node (address a) pending w2) as [[n|e1] w3]; run_m.
      * intros [= <- <- <-]. eexists _, _, _. repeat split.
      * rewrite Ha; run_m.
        destruct (get_transaction_count node (address a) latest w3) as [[n|e2] w4]; run_m.
        -- intros [= <- <- <-]. eexists _, _, _. repeat split.
        -- discriminate.
    + rewrite Ha; run_m. discriminate.
Qed.


Lemma attempt_try_warm (tb : Builder W Tx) (st : State W) (m : Z) :
  _nonce_cache (self st) = Some m ->
  warm node st ->
  let '(r, st', log) := attempt_try node tb 0 st in
  builder_nonces log = [Some m] /\ nonce_queries log = [].
Proof.
  intros Hc Hw. unfold attempt_try. cbv beta iota delta [bind].
  rewrite Z.ltb_irrefl, (get_nonce_cached st m Hc Hw).
  destruct st as [me w]. run_m.
  destruct (tb (Some m) (time_time node w).2) as [[tx|e] w2]; run_m; [|auto].
  destruct (sign_transaction node tx (private_key me) w2) as [[raw|e] w3]; run_m; [|auto].
  destruct (send_raw_transaction node raw w3) as [[h|e] w4]; run_m; [|auto].
  destruct (wait_for_transaction_receipt node h 300 w4) as [[rc|e] w5]; run_m; [|auto].
  destruct (status rc =? 1); run_m; auto.
Qed.

(** C4: after a successful run the cached nonce is the nonce given to the
    builder of the successful transaction (the last one built) plus 1; and
    when the next run starts with a warm cache and succeeds without any
    query of the transaction count, it builds exactly one transaction, with
    the next nonce, and leaves the cache one further. *)
Theorem successful_submissions_use_consecutive_nonces
    (tb : Builder W Tx) (max_retries : Z) (st st' : State W)
    (d : TxResult) (log : list Event) :
  _send_transaction_with_retry node tb max_retries st = (Ok d, st', log) ->
  success d = true ->
  exists n,
    last (builder_nonces log) = Some (Some n) /\
    _nonce_cache (self st') = Some (n + 1) /\
    forall (tb2 : Builder W Tx) (max2 : Z) (d2 : TxResult) (st2 : State W)
           (log2 : list Event),
      warm node st' ->
      _send_transaction_with_retry node tb2 max2 st' = (Ok d2, st2, log2) ->
      success d2 = true ->
      nonce_queries log2 = [] ->
      builder_nonces log2 = [Some (n + 1)] /\
      _nonce_cache (self st2) = Some (n + 2).
Proof.
  assert (Hone : forall tb0 max0 s0 s1 d0 l0,
            _send_transaction_with_retry node tb0 max0 s0 = (Ok d0, s1, l0) ->
            success d0 = true ->
            exists n, last (builder_nonces l0) = Some (Some n) /\
                      _nonce_cache (self s1) = Some (n + 1)).
  { intros tb0 max0 s0 s1 d0 l0 Hrun Hd. unfold _send_transaction_with_retry in Hrun.
    destruct (send_loop_cases tb0 max0 (range max0) s0)
      as (d' & s' & l' & Hrun' & _ & _ & Hcase).
    rewrite Hrun in Hrun'. injection Hrun' as <- <- <-.
    destruct Hcase as [[_ [msg ->]]|(l & h & rc & n & _ & _ & Hn & Hd0 & Hc & _)].
    - discriminate.
    - exists n. split; [exact Hn|]. apply Hc.
      destruct (status rc =? 1) eqn:Hst; [apply Z.eqb_eq, Hst|].
      subst d0. discriminate. }
  intros Hrun Hd.
  destruct (Hone _ _ _ _ _ _ Hrun Hd) as (n & Hn & Hc).
  exists n. split; [exact Hn|]. split; [exact Hc|].
  intros tb2 max2 d2 st2 log2 Hw Hrun2 Hd2 Hq.
  destruct (Hone _ _ _ _ _ _ Hrun2 Hd2) as (n2 & Hn2 & Hc2).
  assert (Hb : builder_nonces log2 = [Some (n + 1)]).
  { unfold _send_transaction_with_retry in Hrun2.
    destruct (Z_lt_le_dec 0 max2) as [Hpos|Hneg].
    2:{ unfold range in Hrun2. replace (Z.to_nat max2) with 0%nat in Hrun2 by lia.
        simpl in Hrun2. injection Hrun2 as <- _ _. discriminate. }
    destruct (range_pos max2 Hpos) as (rest & Hrange & Hall).
    rewrite Hrange in Hrun2. cbn [for_each] in Hrun2. unfold bind at 1 in Hrun2.
    unfold attempt_step at 1 in Hrun2. unfold try_catch in Hrun2.
    pose proof (attempt_try_warm tb2 st' (n + 1) Hc Hw) as Hwarm.
    pose proof (attempt_try_cases tb2 0 st') as Ht.
    destruct (attempt_try node tb2 0 st') as [[[[d0|]|e] s1] l1].
    - unfold ret in Hrun2. injection Hrun2 as _ _ <-.
      rewrite app_nil_r. apply Hwarm.
    - destruct Ht as (_ & _ & []).
    - exfalso.
      destruct (attempt_except_cases max2 0 e s1) as (r & s2 & l2 & He & _ & _ & _ & Hr).
      rewrite He in Hrun2. destruct r as [d0|].
      + unfold ret in Hrun2. injection Hrun2 as <- _ _. subst d0. discriminate.
      + destruct (send_loop_cases tb2 max2 rest s2)
          as (d3 & s3 & l3 & Hrun3 & _ & _ & Hcase).
        rewrite Hrun3 in Hrun2. injection Hrun2 as <- <- <-.
        destruct Hcase as [[_ [msg ->]]|(l & h & rc & k & _ & _ & _ & _ & _ & Hq3)].
        * discriminate.
        * apply (Hq3 Hall). unfold nonce_queries in *.
          rewrite !omap_app in Hq.
          apply app_eq_nil in Hq as [_ Hq]. exact Hq. }
  split; [exact Hb|].
  rewrite Hb in Hn2. simpl in Hn2. injection Hn2 as <-.
  rewrite Hc2. f_equal. lia.
Qed.

(** C10: with no account configured, each of the three operations returns
    [{'success': False, 'error': 'No account configured for transactions'}]
    and leaves the object and the world as they were, with no call to the
    outside: nothing is built, signed or sent and the nonce cache keeps its
    value. *)
Theorem read_only_mode_is_side_effect_free (st : State W) :
  account (self st) = None ->
  (forall repo_data,
     register_repository_on_chain node repo_data st = (Ok no_account, st, [])) /\
  (forall github_url license_cid,
     add_link_to_registry node github_url license_cid st = (Ok no_account, st, [])) /\
  (forall infringing_url dmca_cid,
     file_dmca_on_chain node infringing_url dmca_cid st = (Ok no_account, st, [])) /\
  no_account = {| success := false;
                  error := Some "No account configured for transactions";
                  tx_hash := None; block_number := None; gas_used := None;
                  receipt := None; repo_id := None |}.
Proof.
  intros Ha. destruct st as [me w]. simpl in Ha.
  unfold register_repository_on_chain, add_link_to_registry, file_dmca_on_chain.
  run_m. rewrite Ha. run_m. repeat split.
Qed.

End Facts.

(** The theorems at work on the scripted node. *)

Lemma get_nonce_contract_witness :
  _get_nonce Scenario.node false Scenario.warmed
  = (Ok (Some 7), Scenario.warmed, []) /\
  _get_nonce Scenario.node true Scenario.warmed
  = (Ok (Some 7), Scenario.warmed, [GetTransactionCount "0x742d" pending (Ok 7)]).
Proof.
  split.
  - apply (proj1 (get_nonce_contract Scenario.node false Scenario.warmed 0 1%nat eq_refl)).
    + reflexivity.
    + discriminate.
    + vm_compute. discriminate.
  - apply (proj2 (get_nonce_contract Scenario.node true Scenario.warmed 0 1%nat eq_refl)
             (or_introl eq_refl) {| address := "0x742d" |} eq_refl).
    reflexivity.
Defined.

Lemma nonce_error_invalidates_cache_witness :
  attempt_step Scenario.node Scenario.builder 3 0 Scenario.fresh
  = (Ok None,
     {| self := Scenario.interface Scenario.me None; world := 1%nat |},
     [GetTransactionCount "0x742d" pending (Ok 7); TransactionBuilder (Some 7) true;
      SignTransaction true;
      SendRawTransaction (Raise (Exn "ValueError" "Nonce too low")); Sleep 2]).
Proof.
  apply (nonce_error_invalidates_cache Scenario.node Scenario.builder 3 0 []
           (ret (failure_dict "Max retries exceeded")) Scenario.fresh
           {| self := Scenario.interface Scenario.me (Some 7); world := 1%nat |}
           (Exn "ValueError" "Nonce too low")
           [GetTransactionCount "0x742d" pending (Ok 7); TransactionBuilder (Some 7) true;
            SignTransaction true;
            SendRawTransaction (Raise (Exn "ValueError" "Nonce too low"))]).
  - reflexivity.
  - reflexivity.
Defined.

Lemma successful_submissions_use_consecutive_nonces_witness :
  exists st1 st2 d1 d2 log1 log2,
    _send_transaction_with_retry Scenario.node Scenario.builder 3 Scenario.warmed
    = (Ok d1, st1, log1) /\
    _send_transaction_with_retry Scenario.node Scenario.builder 3 st1
    = (Ok d2, st2, log2) /\
    last (builder_nonces log1) = Some (Some 7) /\
    _nonce_cache (self st1) = Some 8 /\
    builder_nonces log2 = [Some 8] /\
    _nonce_cache (self st2) = Some 9.
Proof.
  eexists _, _, _, _, _, _.
  split; [vm_compute; reflexivity|].
  split; [vm_compute; reflexivity|].
  destruct (successful_submissions_use_consecutive_nonces
              Scenario.node Scenario.builder 3 Scenario.warmed _ _ _ eq_refl eq_refl)
    as (n & Hn & Hc & Hnext).
  vm_compute in Hn. injection Hn as <-.
  split; [reflexivity|]. split; [exact Hc|].
  eapply (Hnext Scenario.builder 3).
  - vm_compute. discriminate.
  - vm_compute. reflexivity.
  - reflexivity.
  - reflexivity.
Defined.

Lemma read_only_mode_is_side_effect_free_witness :
  add_link_to_registry Scenario.node "https://github.com/o/r" "QmCid" Scenario.read_only
  = (Ok no_account, Scenario.read_only, []).
Proof.
  apply (read_only_mode_is_side_effect_free Scenario.node Scenario.read_only eq_refl).
Defined.

End FilecoinFacts.

(** ** The retry helper and the cost estimate *)

Module BlockchainUtilsFacts.
Import Py BlockchainUtils.

Section RetryFacts.
Context {W A : Type} (func : W -> Res A * W) (time_sleep : Q -> W -> Res unit * W).

Lemma wait_time_fits (delay : Q) (attempt : Z) :
  attempt < 1024 -> wait_time delay attempt = Ok (backoff delay attempt).
Proof.
  intros H. unfold wait_time.
  destruct (1024 <=? attempt) eqn:E; [apply Z.leb_le in E; lia|reflexivity].
Qed.

Lemma retry_loop_from (max_retries : Z) (delay : Q) (k : nat) :
  max_retries <= 1025 ->
  sleep_takes time_sleep max_retries delay ->
  forall (i : nat) (w : W),
    (i + k)%nat = Z.to_nat max_retries ->
    let '(r, w', log) :=
      for_each (map Z.of_nat (seq i k))
        (fun attempt =>
           try_catch
             (let* v := call_func func in ret (Some (Some v)))
             (fun e =>
                if attempt =? max_retries - 1 then raise e
                else
                  match wait_time delay attempt with
                  | Raise overflow => raise overflow
                  | Ok seconds =>
                      let* _ := sleep time_sleep seconds in
                      ret None
                  end))
        (ret None) w in
    exists errs : list exn,
      sleeps log = map (fun j => backoff delay (Z.of_nat j)) (seq i (length errs)) /\
      match r with
      | Ok (Some v) => calls log = map Raise errs ++ [Ok v] /\ (length errs < k)%nat
      | Ok None => k = 0%nat /\ log = [] /\ errs = []
      | Raise e => calls log = map Raise errs ++ [Raise e] /\ S (length errs) = k
      end.
Proof.
  intros Hmax Hsleep. induction k as [|k IH]; intros i w Hik.
  - simpl. exists []. simpl. auto.
  - cbn [seq map for_each]. unfold bind at 1. unfold try_catch at 1.
    unfold bind at 1. unfold call_func at 1.
    destruct (func w) as [[v|e] w1]; simpl.
    + exists []. simpl. split; [reflexivity|]. split; [reflexivity|lia].
    + destruct (Z.of_nat i =? max_retries - 1) eqn:Hlast.
      * apply Z.eqb_eq in Hlast. unfold raise. simpl.
        exists []. simpl. split; [reflexivity|]. split; [reflexivity|lia].
      * apply Z.eqb_neq in Hlast.
        rewrite wait_time_fits by lia.
        unfold bind at 1. unfold sleep.
        destruct (Hsleep (Z.of_nat i) w1) as [w2 Hw2]; [lia|].
        rewrite Hw2. unfold ret at 1. simpl.
        assert (Hik' : (S i + k)%nat = Z.to_nat max_retries) by lia.
        specialize (IH (S i) w2 Hik').
        destruct (for_each _ _ _ _) as [[r w'] log'].
        destruct IH as (errs & Hs & Hr).
        exists (e :: errs). unfold sleeps, calls in *. cbn. rewrite Hs.
        split; [reflexivity|].
        destruct r as [[v|]|e'].
        -- destruct Hr as [-> Hlt]. split; [reflexivity|lia].
        -- destruct Hr as (-> & _ & _). lia.
        -- destruct Hr as [-> Hlen]. split; [reflexivity|lia].
Qed.

(** C6 (as amended): when [max_retries] is at most 1025 and [time.sleep]
    takes the waits of the run, [retry_transaction] calls [func] at most
    [max_retries] times; all calls but the last raised, and after the
    failure of attempt [j] (0, 1, ...) it sleeps [delay * 2 ** j] seconds
    before the next one, a delay that doubles at every retry; when [func]
    returns, its value is returned as it is; when all [max_retries] calls
    raise, the exception of the last call is raised. *)
Theorem retry_transaction_exponential_backoff
    (max_retries : Z) (delay : Q) (w : W) :
  max_retries <= 1025 ->
  sleep_takes time_sleep max_retries delay ->
  let '(r, w', log) := retry_transaction func time_sleep max_retries delay w in
  (length (calls log) <= Z.to_nat max_retries)%nat /\
  exists errs : list exn,
    sleeps log = map (fun j => backoff delay (Z.of_nat j)) (seq 0 (length errs)) /\
    match r with
    | Ok (Some v) => calls log = map Raise errs ++ [Ok v]
    | Ok None => max_retries <= 0 /\ log = []
    | Raise e => calls log = map Raise errs ++ [Raise e] /\
                 length (calls log) = Z.to_nat max_retries
    end.
Proof.
  intros Hmax Hsleep. unfold retry_transaction, range.
  pose proof (retry_loop_from max_retries delay (Z.to_nat max_retries) Hmax Hsleep
                0%nat w eq_refl) as H.
  destruct (for_each _ _ _ _) as [[r w'] log].
  destruct H as (errs & Hs & Hr).
  destruct r as [[v|]|e].
  - destruct Hr as [Hc Hlt]. split.
    + rewrite Hc, length_app, length_map. simpl. lia.
    + exists errs. auto.
  - destruct Hr as (Hk & -> & ->). split; [simpl; lia|].
    exists []. split; [reflexivity|]. split; [lia|reflexivity].
  - destruct Hr as [Hc Hlen].
    assert (Hl : length (calls log) = Z.to_nat max_retries).
    { rewrite Hc, length_app, length_map. simpl. lia. }
    split; [lia|]. exists errs. auto.
Qed.

End RetryFacts.

Lemma retry_transaction_exponential_backoff_witness :
  exists errs : list exn,
    sleeps (retry_transaction UtilsScenario.fails_once UtilsScenario.demo_sleep 3 2 0%nat).2
    = map (fun j => backoff 2 (Z.of_nat j)) (seq 0 (length errs)) /\
    calls (retry_transaction UtilsScenario.fails_once UtilsScenario.demo_sleep 3 2 0%nat).2
    = map Raise errs ++ [Ok 42].
Proof.
  assert (Hmax : 3 <= 1025) by lia.
  assert (Hsleep : sleep_takes UtilsScenario.demo_sleep 3 2).
  { intros j w0 Hj. assert (Hc : j = 0 \/ j = 1) by lia.
    destruct Hc as [-> | ->]; exists w0; reflexivity. }
  pose proof (retry_transaction_exponential_backoff
                UtilsScenario.fails_once UtilsScenario.demo_sleep 3 2 0%nat Hmax Hsleep) as H.
  vm_compute in H. destruct H as (_ & errs & Hs & Hc).
  exists errs. split; [exact Hs|exact Hc].
Defined.

(** C6 as stated fails: with the default [max_retries = 3] and
    [delay = 2.0], a callable that always raises is retried after 2 and then
    after 4 seconds, so the backoff is not fixed. *)
Lemma retry_transaction_backoff_not_fixed :
  sleeps (retry_transaction UtilsScenario.always_fails UtilsScenario.demo_sleep 3 2 0%nat).2
  = [2%Q; 4%Q] /\
  ~ fixed_backoff
      (retry_transaction UtilsScenario.always_fails UtilsScenario.demo_sleep 3 2 0%nat).2.
Proof.
  split; [reflexivity|].
  intros [d Hall].
  change (Forall (fun q => (q == d)%Q) [2%Q; 4%Q]) in Hall.
  apply Forall_cons_1 in Hall as [H2 Hall].
  apply Forall_cons_1 in Hall as [H4 _].
  assert (H : (2 == 4)%Q) by (rewrite H2, H4; reflexivity).
  vm_compute in H. discriminate.
Qed.

(** Beyond the conditions of C6 the waits end the run: a wait that
    [time.sleep] refuses is raised after the first call, whatever
    [max_retries] allows. *)
Example retry_transaction_refused_wait :
  retry_transaction UtilsScenario.always_fails UtilsScenario.demo_sleep 2 10000000000 0%nat
  = (Raise (Exn "OverflowError" "timestamp too large to convert to C _PyTime_t"), 1%nat,
     [Called (Raise (Exn "ConnectionError" "node unreachable")); Sleep 10000000000]).
Proof. vm_compute. reflexivity. Qed.

Section CostFacts.
Context {Float : Type} (float : Q -> Float).

Lemma from_wei_in_range (number : Z) (unit : Unit) :
  0 <= number <= MAX_WEI -> exists q, from_wei number unit = Ok q.
Proof.
  intros [Hlo Hhi]. unfold from_wei.
  destruct (number =? 0); [eauto|].
  destruct (number <? MIN_WEI) eqn:E1; [apply Z.ltb_lt in E1; unfold MIN_WEI in E1; lia|].
  destruct (MAX_WEI <? number) eqn:E2; [apply Z.ltb_lt in E2; lia|].
  cbn. eauto.
Qed.

Lemma from_wei_above_range (number : Z) (unit : Unit) :
  MAX_WEI < number ->
  from_wei number unit = Raise (Exn "ValueError" "value must be between 1 and 2**256 - 1").
Proof.
  intros H. unfold from_wei.
  assert (Hpos : 0 < MAX_WEI) by (vm_compute; reflexivity).
  destruct (number =? 0) eqn:E0; [apply Z.eqb_eq in E0; lia|].
  destruct (number <? MIN_WEI); [reflexivity|].
  destruct (MAX_WEI <? number) eqn:E2; [reflexivity|apply Z.ltb_ge in E2; lia].
Qed.

(** C8 (as amended): for non-negative [gas_used] and [gas_price],
    [estimate_total_cost] returns a dict when the cost
    [gas_used * gas_price] and [gas_price] are at most [2**256 - 1]; its
    [total_cost_wei] is then the exact product and its [total_cost_tfil]
    equals its [total_cost_fil].  When one of the two is larger the
    conversion raises [ValueError] and no dict is returned. *)
Theorem estimate_total_cost_exact (gas_used gas_price : Z) :
  0 <= gas_used -> 0 <= gas_price ->
  (gas_used * gas_price <= MAX_WEI -> gas_price <= MAX_WEI ->
   exists d, estimate_total_cost float gas_used gas_price = Ok d /\
     total_cost_wei d = gas_used * gas_price /\
     total_cost_tfil d = total_cost_fil d /\
     gas_price_wei d = gas_price) /\
  (MAX_WEI < gas_used * gas_price \/ MAX_WEI < gas_price ->
   exists msg, estimate_total_cost float gas_used gas_price
               = Raise (Exn "ValueError" msg)).
Proof.
  intros Hu Hp. split.
  - intros Hcost Hprice. unfold estimate_total_cost.
    destruct (from_wei_in_range (gas_used * gas_price) ether) as [q ->]; [lia|].
    destruct (from_wei_in_range gas_price gwei) as [g ->]; [lia|].
    eexists. split; [reflexivity|]. cbn. auto.
  - intros H. unfold estimate_total_cost.
    destruct (Z.lt_ge_cases MAX_WEI (gas_used * gas_price)) as [Hc|Hc].
    + rewrite (from_wei_above_range _ ether Hc). eauto.
    + destruct H as [H|H]; [lia|].
      destruct (from_wei_in_range (gas_used * gas_price) ether) as [q ->]; [lia|].
      rewrite (from_wei_above_range _ gwei H). eauto.
Qed.

End CostFacts.

Lemma estimate_total_cost_exact_witness :
  exists d,
    estimate_total_cost (fun q => q) 21000 1000000000 = Ok d /\
    total_cost_wei d = 21000000000000 /\
    total_cost_tfil d = total_cost_fil d.
Proof.
  assert (Hu : 0 <= 21000) by lia.
  assert (Hp : 0 <= 1000000000) by lia.
  destruct (estimate_total_cost_exact (fun q => q) 21000 1000000000 Hu Hp) as [Hret _].
  destruct Hret as (d & Hd & Hw & Ht & _).
  - vm_compute. discriminate.
  - vm_compute. discriminate.
  - exists d. split; [exact Hd|]. split; [exact Hw|exact Ht].
Defined.

(** C8 as stated fails: [gas_used = 2**200] and [gas_price = 2**100] are
    non-negative integers, and the call raises instead of returning the
    dict with the product [2**300]. *)
Lemma estimate_total_cost_raises_above_max_wei :
  0 <= 2 ^ 200 /\ 0 <= 2 ^ 100 /\
  estimate_total_cost (fun q => q) (2 ^ 200) (2 ^ 100)
  = Raise (Exn "ValueError" "value must be between 1 and 2**256 - 1") /\
  ~ exists d, estimate_total_cost (fun q => q) (2 ^ 200) (2 ^ 100) = Ok d.
Proof.
  assert (H : estimate_total_cost (fun q => q) (2 ^ 200) (2 ^ 100)
              = Raise (Exn "ValueError" "value must be between 1 and 2**256 - 1"))
    by (vm_compute; reflexivity).
  split; [vm_compute; discriminate|]. split; [vm_compute; discriminate|].
  split; [exact H|]. intros [d Hd]. rewrite H in Hd. discriminate.
Qed.

End BlockchainUtilsFacts.

(** ** Gateway URLs and CID extraction *)

Module IPFSUtilsFacts.
Import PyStr IPFSUtils.

Lemma contains_cons_false (c a : ascii) (h : string) :
  contains (String c EmptyString) (String a h) = false ->
  Ascii.eqb c a = false /\ contains (String c EmptyString) h = false.
Proof.
  cbn [contains startswith]. rewrite andb_true_r. intros H.
  apply orb_false_iff in H. exact H.
Qed.

(** A string without the first character of the separator is one piece. *)
Lemma split_aux_one_piece (c : ascii) (sep' h : string) :
  contains (String c EmptyString) h = false ->
  split_aux (String c sep') 0 h = [h].
Proof.
  induction h as [|a h IH]; intros Hc.
  - reflexivity.
  - apply contains_cons_false in Hc as [Hca Hh].
    cbn [split_aux startswith]. rewrite Hca. cbn [andb].
    rewrite (IH Hh). reflexivity.
Qed.

Lemma extract_from_gateway (h : string) :
  validate_ipfs_hash h = true ->
  contains "/" h = false ->
  extract_cid_from_url ("https://ipfs.io/ipfs/" +:+ h) = Some h /\
  extract_cid_from_url ("https://gateway.pinata.cloud/ipfs/" +:+ h) = Some h /\
  extract_cid_from_url ("https://cloudflare-ipfs.com/ipfs/" +:+ h) = Some h /\
  extract_cid_from_url ("https://dweb.link/ipfs/" +:+ h) = Some h.
Proof.
  intros Hv Hc.
  pose proof (split_aux_one_piece "/" "ipfs/" h Hc) as H1.
  pose proof (split_aux_one_piece "/" EmptyString h Hc) as H2.
  unfold extract_cid_from_url, split.
  cbv beta iota delta [String.append].
  repeat split; cbn; rewrite H1; cbn; unfold split; rewrite H2; cbn; rewrite Hv;
    reflexivity.
Qed.

(** C9 (as amended): a hash accepted by [validate_ipfs_hash] that does not
    start with [local://] gets exactly 4 gateway URLs, and when the hash
    contains no [/], [extract_cid_from_url] gives the hash back from each
    of them; a rejected hash gets the empty list. *)
Theorem gateway_urls_round_trip (ipfs_hash : string) :
  (validate_ipfs_hash ipfs_hash = true ->
   startswith "local://" ipfs_hash = false ->
   length (generate_ipfs_urls ipfs_hash) = 4%nat /\
   (contains "/" ipfs_hash = false ->
    forall url, In url (generate_ipfs_urls ipfs_hash) ->
                extract_cid_from_url url = Some ipfs_hash)) /\
  (validate_ipfs_hash ipfs_hash = false -> generate_ipfs_urls ipfs_hash = []).
Proof.
  split.
  - intros Hv Hl. unfold generate_ipfs_urls. rewrite Hv, Hl. cbn [negb].
    split; [reflexivity|].
    intros Hc url Hin.
    destruct (extract_from_gateway ipfs_hash Hv Hc) as (H1 & H2 & H3 & H4).
    destruct Hin as [<-|[<-|[<-|[<-|[]]]]]; assumption.
  - intros Hv. unfold generate_ipfs_urls. rewrite Hv. reflexivity.
Qed.

Lemma gateway_urls_round_trip_witness :
  length (generate_ipfs_urls "QmYwAPJzv5CZsnA625s3Xf2nemtYgPpHdWEz79ojWnPbdG") = 4%nat /\
  extract_cid_from_url
    "https://dweb.link/ipfs/QmYwAPJzv5CZsnA625s3Xf2nemtYgPpHdWEz79ojWnPbdG"
  = Some "QmYwAPJzv5CZsnA625s3Xf2nemtYgPpHdWEz79ojWnPbdG" /\
  generate_ipfs_urls "invalid_hash" = [].
Proof.
  destruct (gateway_urls_round_trip "QmYwAPJzv5CZsnA625s3Xf2nemtYgPpHdWEz79ojWnPbdG")
    as [Hok _].
  destruct (Hok eq_refl eq_refl) as [Hlen Hrt].
  split; [exact Hlen|]. split.
  - apply (Hrt eq_refl). cbn. tauto.
  - apply (proj2 (gateway_urls_round_trip "invalid_hash")). reflexivity.
Defined.

(** C9 as stated fails: a CID followed by a path is accepted (it starts
    with [b] and has at least 50 characters), but extraction from its
    gateway URL stops at the first [/] and returns the bare CID. *)
Lemma round_trip_fails_on_path :
  let h := "bafybeigdyrzt5sfp7udm7hu76uh7y26nf3efuylqabf3oclgtqy55fbzdi/README.md" in
  validate_ipfs_hash h = true /\
  startswith "local://" h = false /\
  In ("https://ipfs.io/ipfs/" +:+ h) (generate_ipfs_urls h) /\
  extract_cid_from_url ("https://ipfs.io/ipfs/" +:+ h)
  = Some "bafybeigdyrzt5sfp7udm7hu76uh7y26nf3efuylqabf3oclgtqy55fbzdi" /\
  extract_cid_from_url ("https://ipfs.io/ipfs/" +:+ h) <> Some h.
Proof.
  cbv zeta. split; [reflexivity|]. split; [reflexivity|].
  split; [left; reflexivity|]. split; [reflexivity|].
  vm_compute. discriminate.
Qed.

Example validate_cidv0 :
  validate_ipfs_hash "QmYwAPJzv5CZsnA625s3Xf2nemtYgPpHdWEz79ojWnPbdG" = true.
Proof. reflexivity. Qed.

Example extract_first_segment :
  split "/ipfs/" "https://gateway.pinata.cloud/ipfs/QmTest123/file.pdf"
  = ["https://gateway.pinata.cloud"; "QmTest123/file.pdf"].
Proof. reflexivity. Qed.

End IPFSUtilsFacts.

(** ** The storage fall-back *)

Module EnhancedIPFSManagerFacts.
Import Py EnhancedIPFSManager.

Lemma priority_of_init (config : gmap string string) :
  service_priority (init config) = expected_priority config.
Proof.
  unfold init, expected_priority, _determine_service_priority. cbn.
  destruct (truthy (config !! "PINATA_API_KEY") && truthy (config !! "PINATA_API_SECRET"));
    destruct (truthy (config !! "WEB3_STORAGE_TOKEN")); reflexivity.
Qed.

Lemma expected_priority_known (config : gmap string string) :
  Forall known (expected_priority config).
Proof.
  unfold expected_priority, known.
  destruct (truthy (config !! "PINATA_API_KEY") && truthy (config !! "PINATA_API_SECRET"));
    destruct (truthy (config !! "WEB3_STORAGE_TOKEN")); cbn;
    repeat (apply Forall_cons; split; [cbn; tauto|]); apply Forall_nil_2.
Qed.

Section Facts.
Context {W : Type} (storage : Storage W).

Lemma iteration_known self file_path metadata service (w : W) :
  known service ->
  exists (r : Res string) (w' : W),
    iteration storage self file_path metadata service w
    = (match r with Ok h => Ok (Some h) | Raise _ => Ok None end, w',
       [Tried service r]).
Proof.
  unfold known, iteration, try_catch, bind, tried, ret.
  intros [<-|[<-|[<-|[<-|[]]]]]; cbn [String.eqb Ascii.eqb Bool.eqb andb].
  - destruct (_upload_to_pinata _ _ _ _ w) as [[h|e] w'];
      [exists (Ok h), w'|exists (Raise e), w']; reflexivity.
  - destruct (_upload_to_web3_storage _ _ _ _ w) as [[h|e] w'];
      [exists (Ok h), w'|exists (Raise e), w']; reflexivity.
  - destruct (_upload_to_local_ipfs _ _ _ _ w) as [[h|e] w'];
      [exists (Ok h), w'|exists (Raise e), w']; reflexivity.
  - destruct (_fallback_local_storage _ _ _ w) as [[h|e] w'];
      [exists (Ok h), w'|exists (Raise e), w']; reflexivity.
Qed.

Lemma services_loop self file_path metadata (services : list string) :
  Forall known services ->
  forall w : W,
    let '(r, w', log) :=
      for_each services (iteration storage self file_path metadata)
        (raise (Exn "Exception" "All IPFS upload methods failed")) w in
    length (attempts log) = length log /\
    exists k, map fst (attempts log) = take k services /\
      match r with
      | Ok h => exists before svc,
                  attempts log = before ++ [(svc, Ok h)] /\ Forall failed before
      | Raise e => e = Exn "Exception" "All IPFS upload methods failed" /\
                   map fst (attempts log) = services /\ Forall failed (attempts log)
      end.
Proof.
  induction services as [|s rest IH]; intros Hk w.
  - cbn. split; [reflexivity|]. exists 0%nat. repeat split. apply Forall_nil_2.
  - apply Forall_cons in Hk as [Hs Hrest].
    cbn [for_each]. unfold bind at 1.
    destruct (iteration_known self file_path metadata s w Hs) as (r0 & w1 & ->).
    destruct r0 as [h|e].
    + unfold ret. cbn. split; [reflexivity|]. exists 1%nat. split; [reflexivity|].
      exists [], s. split; [reflexivity|apply Forall_nil_2].
    + specialize (IH Hrest w1).
      destruct (for_each rest _ _ w1) as [[r w'] log].
      destruct IH as (Hlen & k & Hnames & Hr).
      unfold attempts in *. cbn. rewrite Hlen. split; [reflexivity|].
      exists (S k). cbn. rewrite Hnames. split; [reflexivity|].
      destruct r as [h|e'].
      * destruct Hr as (before & svc & -> & Hf).
        exists ((s, Raise e) :: before), svc. split; [reflexivity|].
        apply Forall_cons. split; [exact I|exact Hf].
      * destruct Hr as (-> & Hn & Hf). rewrite <- Hnames, Hn.
        repeat split. apply Forall_cons. split; [exact I|exact Hf].
Qed.

Lemma headers_of_init (config : gmap string string) :
  truthy (config !! "PINATA_API_KEY") && truthy (config !! "PINATA_API_SECRET") = true ->
  bool_decide (pinata_headers (init config) = ∅) = false.
Proof.
  intros H. unfold init. cbn. rewrite H.
  apply bool_decide_eq_false_2. apply insert_non_empty.
Qed.

(** For a manager built by [__init__] no service of its list is refused
    for a missing credential: one iteration of the loop is the call of the
    storage behind the service. *)
Lemma iteration_of_init config file_path metadata service (w : W) :
  In service (expected_priority config) ->
  iteration storage (init config) file_path metadata service w
  = (match (service_answer storage (init config) file_path metadata service w).1 with
     | Ok h => Ok (Some h)
     | Raise _ => Ok None
     end,
     (service_answer storage (init config) file_path metadata service w).2,
     [Tried service (service_answer storage (init config) file_path metadata service w).1]).
Proof.
  unfold expected_priority. intros Hin.
  destruct (truthy (config !! "PINATA_API_KEY") && truthy (config !! "PINATA_API_SECRET"))
    eqn:Hp;
    destruct (truthy (config !! "WEB3_STORAGE_TOKEN")) eqn:Ht;
    cbn in Hin; intuition subst;
    unfold iteration, service_answer, try_catch, bind, tried, ret;
    cbn [String.eqb Ascii.eqb Bool.eqb andb];
    unfold _upload_to_pinata, _upload_to_web3_storage, _upload_to_local_ipfs,
      _fallback_local_storage;
    rewrite ?(headers_of_init config Hp);
    change (web3_storage_token (init config)) with (config !! "WEB3_STORAGE_TOKEN");
    rewrite ?Ht; cbn [negb];
    repeat match goal with
           | |- context [pin_file_to_ipfs ?s ?m ?p ?md ?w] =>
               destruct (pin_file_to_ipfs s m p md w) as [[?|?] ?]
           | |- context [web3_upload ?s ?m ?p ?w] =>
               destruct (web3_upload s m p w) as [[?|?] ?]
           | |- context [local_add ?s ?m ?p ?w] =>
               destruct (local_add s m p w) as [[?|?] ?]
           | |- context [abspath ?s ?p ?w] =>
               destruct (abspath s p w) as [[?|?] ?]
           end; reflexivity.
Qed.

Lemma services_loop_served config file_path metadata (services : list string) :
  (forall s, In s services -> In s (expected_priority config)) ->
  forall w : W,
    let '(r, w', log) :=
      for_each services (iteration storage (init config) file_path metadata)
        (raise (Exn "Exception" "All IPFS upload methods failed")) w in
    served storage (init config) file_path metadata w (attempts log) w' /\
    exists k, map fst (attempts log) = take k services /\
      match r with
      | Ok h => exists before svc,
                  attempts log = before ++ [(svc, Ok h)] /\ Forall failed before
      | Raise e => e = Exn "Exception" "All IPFS upload methods failed" /\
                   map fst (attempts log) = services /\ Forall failed (attempts log)
      end.
Proof.
  induction services as [|s rest IH]; intros Hk w.
  - cbn. split; [reflexivity|]. exists 0%nat. repeat split. apply Forall_nil_2.
  - cbn [for_each]. unfold bind at 1.
    rewrite (iteration_of_init config file_path metadata s w) by (apply Hk; left; reflexivity).
    destruct (service_answer storage (init config) file_path metadata s w)
      as [[h|e] w1] eqn:Hans; cbn [fst snd].
    + unfold ret. cbn. rewrite Hans. split; [auto|].
      exists 1%nat. split; [reflexivity|].
      exists [], s. split; [reflexivity|apply Forall_nil_2].
    + assert (Hrest : forall s0, In s0 rest -> In s0 (expected_priority config))
        by (intros s0 H0; apply Hk; right; exact H0).
      specialize (IH Hrest w1).
      destruct (for_each rest _ _ w1) as [[r w'] log].
      destruct IH as (Hserved & k & Hnames & Hr).
      unfold attempts in *. cbn. rewrite Hans. split; [split; [reflexivity|exact Hserved]|].
      exists (S k). cbn. rewrite Hnames. split; [reflexivity|].
      destruct r as [h|e'].
      * destruct Hr as (before & svc & -> & Hf).
        exists ((s, Raise e) :: before), svc. split; [reflexivity|].
        apply Forall_cons. split; [exact I|exact Hf].
      * destruct Hr as (-> & Hn & Hf). rewrite <- Hnames, Hn.
        repeat split. apply Forall_cons. split; [exact I|exact Hf].
Qed.

(** C5: the manager built from a configuration tries the services in the
    order Pinata (when both credentials are set), Web3.Storage (when a token
    is set), local IPFS node, local file.  On a path that exists,
    [upload_to_ipfs] asks a prefix of that list, in order, each service in
    the world the one before left, and what the log shows for a service is
    what its storage answered; it returns the answer of the first service
    that does not raise, every service asked before it having raised; it
    raises "All IPFS upload methods failed" only when every service of the
    list was asked and raised.  On a path that does not exist it raises
    [FileNotFoundError] and asks no service. *)
Theorem upload_tries_services_in_priority_order
    (config : gmap string string) (file_path : string)
    (metadata : option (gmap string string)) (w : W) :
  service_priority (init config) = expected_priority config /\
  let '(r, w', log) := upload_to_ipfs storage (init config) file_path metadata w in
  if (path_exists storage file_path w).1 then
    served storage (init config) file_path metadata
           (path_exists storage file_path w).2 (attempts log) w' /\
    exists k,
      map fst (attempts log) = take k (service_priority (init config)) /\
      match r with
      | Ok h => exists before svc,
                  attempts log = before ++ [(svc, Ok h)] /\ Forall failed before
      | Raise e => e = Exn "Exception" "All IPFS upload methods failed" /\
                   map fst (attempts log) = service_priority (init config) /\
                   Forall failed (attempts log)
      end
  else
    r = Raise (Exn "FileNotFoundError" ("File not found: " +:+ file_path)) /\
    attempts log = [] /\ w' = (path_exists storage file_path w).2.
Proof.
  split; [apply priority_of_init|].
  unfold upload_to_ipfs. unfold bind at 1.
  destruct (path_exists storage file_path w) as [[|] w1]; cbn [negb fst snd].
  - rewrite priority_of_init.
    pose proof (services_loop_served config file_path metadata
                  (expected_priority config) (fun s Hs => Hs) w1) as H.
    destruct (for_each _ _ _ w1) as [[r w'] log].
    destruct H as (Hserved & k & Hn & Hr).
    unfold attempts in *. cbn. split; [exact Hserved|].
    exists k. split; [exact Hn|exact Hr].
  - unfold raise. cbn. auto.
Qed.

End Facts.

Example upload_falls_back_to_web3_storage :
  upload_to_ipfs demo_storage (init demo_config) "/tmp/license.pdf" None 0%nat
  = (Ok "bafybeigdyrzt5sfp7udm7hu76uh7y26nf3efuylqabf3oclgtqy55fbzdi", 2%nat,
     [PathExists "/tmp/license.pdf" true;
      Tried "pinata" (Raise (Exn "HTTPError" "503 Server Error"));
      Tried "web3_storage"
        (Ok "bafybeigdyrzt5sfp7udm7hu76uh7y26nf3efuylqabf3oclgtqy55fbzdi")]).
Proof. vm_compute. reflexivity. Qed.

Example upload_of_missing_file :
  upload_to_ipfs demo_storage (init demo_config) "/tmp/nothing.pdf" None 0%nat
  = (Raise (Exn "FileNotFoundError" "File not found: /tmp/nothing.pdf"), 0%nat,
     [PathExists "/tmp/nothing.pdf" false]).
Proof. vm_compute. reflexivity. Qed.

End EnhancedIPFSManagerFacts.

(** ** The similarity threshold *)

Module AgentFacts.
Import Py Agent.

Section Facts.
Context {W : Type} (format_int : Z -> string) (format_percent : Q -> string)
        (services : Services W).






















End Facts.


End AgentFacts.

(** ** The submission loop: delays, untouched fields, provenance of the cache *)

Module FilecoinMore.
Import PyStr Py FilecoinContracts FilecoinLog FilecoinFrame.

Ltac run_m :=
  cbv beta iota delta [bind now get ret try_catch call modify account_address raise
                       sleep self world on_self]; simpl.

Section Facts.
Context {W Tx Raw : Type} (node : Node W Tx Raw).

Lemma same_identity_refl (a : Interface) : same_identity a a.
Proof. repeat split. Qed.

Lemma same_identity_trans (a b c : Interface) :
  same_identity a b -> same_identity b c -> same_identity a c.
Proof. unfold same_identity. intros (?&?&?) (?&?&?). repeat split; congruence. Qed.

Lemma get_nonce_frame (force : bool) (st : State W) :
  let '(r, st', log) := _get_nonce node force st in
  sleeps log = [] /\ signatures log = [] /\ submissions log = [] /\
  same_identity (self st) (self st') /\
  (_nonce_cache (self st') = _nonce_cache (self st) \/
   exists n, In n (node_answers log) /\ _nonce_cache (self st') = Some n) /\
  builds log = [].
Proof.
  destruct st as [me w]. unfold _get_nonce. run_m.
  destruct (time_time node w) as [t w1]; run_m.
  destruct (force || bool_decide (_nonce_cache me = None)
            || Qgtb (t - _last_nonce_update me) 30) eqn:Hc; run_m.
  - destruct (account me) as [a|] eqn:Ha; run_m.
    + destruct (get_transaction_count node (address a) pending w1) as [[n|e] w2]; run_m.
      * repeat split; auto. right. exists n. split; [left|]; reflexivity.
      * rewrite Ha; run_m.
        destruct (get_transaction_count node (address a) latest w2) as [[n|e'] w3]; run_m.
        -- repeat split; auto. right. exists n. split; [left|]; reflexivity.
        -- repeat split; auto.
    + rewrite Ha; run_m. repeat split; auto.
  - repeat split; auto.
Qed.


Lemma cache_step (st st1 : option Z) (l1 l2 : list Event) (after : option Z) :
  (st1 = st \/ exists n, In n (node_answers l1) /\ st1 = Some n) ->
  cache_provenance st1 l2 after ->
  cache_provenance st (l1 ++ l2) after.
Proof.
  unfold cache_provenance, node_answers. intros H1 [->|[->|(n & Hn & ->)]].
  - left. reflexivity.
  - destruct H1 as [->|(n & Hn & ->)].
    + right. left. reflexivity.
    + right. right. exists n. rewrite omap_app, in_app_iff. auto.
  - right. right. exists n. rewrite omap_app, in_app_iff. auto.
Qed.

Lemma attempt_try_frame (tb : Builder W Tx) (attempt : Z) (st : State W) :
  let '(r, st', log) := attempt_try node tb attempt st in
  sleeps log = [] /\ same_identity (self st) (self st') /\
  (length (signatures log) <= length (builder_nonces log))%nat /\
  (length (submissions log) <= length (signatures log))%nat /\
  ((exists d, r = Ok (Some d) /\ success d = true) \/
   (_nonce_cache (self st') = _nonce_cache (self st) \/
    exists n, In n (node_answers log) /\ _nonce_cache (self st') = Some n)).
Proof.
  unfold attempt_try. cbv beta iota delta [bind].
  pose proof (get_nonce_frame (0 <? attempt) st) as Hn.
  pose proof (FilecoinFacts.get_nonce_cases node (0 <? attempt) st) as Hb.
  destruct (_get_nonce node (0 <? attempt) st) as [[[v|e] st1] l1].
  2:{ destruct Hn as (Hs & Hg & Hsub & Hid & Hc & _). destruct Hb as (_ & _ & Hbn & _).
      rewrite Hg, Hsub, Hbn. repeat split; auto; apply Hid. }
  destruct Hn as (Hs & Hg & Hsub & Hid & Hc & _). destruct Hb as (_ & _ & Hbn & _).
  destruct st1 as [me w1]. run_m. simpl in Hid, Hc.
  assert (Hc' : forall tl,
            _nonce_cache me = _nonce_cache (self st) \/
            exists n, In n (node_answers (l1 ++ tl)) /\ _nonce_cache me = Some n).
  { intros tl. destruct Hc as [Hc|(n & Hn & Hc)]; [left; exact Hc|].
    right. exists n. unfold node_answers in *. rewrite omap_app, in_app_iff. auto. }
  unfold sleeps, signatures, submissions, builder_nonces in *.
  destruct (tb v w1) as [[tx|e] w2]; run_m.
  2:{ rewrite !omap_app, Hs, Hg, Hsub, Hbn. simpl. repeat split; auto; apply Hid. }
  destruct (sign_transaction node tx (private_key me) w2) as [[raw|e] w3]; run_m.
  2:{ rewrite !omap_app, Hs, Hg, Hsub, Hbn. simpl. repeat split; auto; apply Hid. }
  destruct (send_raw_transaction node raw w3) as [[h|e] w4]; run_m.
  2:{ rewrite !omap_app, Hs, Hg, Hsub, Hbn. simpl. repeat split; auto; apply Hid. }
  destruct (wait_for_transaction_receipt node h 300 w4) as [[rc|e] w5]; run_m.
  2:{ rewrite !omap_app, Hs, Hg, Hsub, Hbn. simpl. repeat split; auto; apply Hid. }
  destruct (status rc =? 1) eqn:Hst; run_m.
  - rewrite !omap_app, Hs, Hg, Hsub, Hbn. simpl.
    split; [reflexivity|].
    split; [destruct (_nonce_cache me); exact Hid|].
    split; [lia|]. split; [lia|].
    left. eexists. split; reflexivity.
  - rewrite !omap_app, Hs, Hg, Hsub, Hbn. simpl. repeat split; auto; apply Hid.
Qed.

Lemma attempt_except_frame (max_retries attempt : Z) (e : exn) (st : State W) :
  exists r st' log,
    attempt_except node max_retries attempt e st = (Ok r, st', log) /\
    signatures log = [] /\ node_answers log = [] /\
    same_identity (self st) (self st') /\
    (_nonce_cache (self st') = None \/ _nonce_cache (self st') = _nonce_cache (self st)) /\
    match r with
    | Some d => sleeps log = [] /\ d = failure_dict (str e)
    | None => sleeps log = [2%Q] \/ sleeps log = [1%Q]
    end.
Proof.
  unfold attempt_except. destruct st as [me w].
  destruct (is_nonce_error (str e)); run_m.
  - eexists _, _, _. repeat split; auto.
  - destruct (attempt =? max_retries - 1); run_m; eexists _, _, _; repeat split; auto.
Qed.

(** What the loop keeps, whatever the node and the builder do. *)
Lemma send_loop_frame (tb : Builder W Tx) (max_retries : Z) (attempts : list Z) :
  forall st : State W,
    let '(r, st', log) :=
      for_each attempts (attempt_step node tb max_retries)
        (ret (failure_dict "Max retries exceeded")) st in
    (length (sleeps log) <= length attempts)%nat /\
    Forall (fun q => q = 1%Q \/ q = 2%Q) (sleeps log) /\
    same_identity (self st) (self st') /\
    (length (submissions log) <= length (signatures log))%nat /\
    (length (signatures log) <= length (builder_nonces log))%nat /\
    ((exists d, r = Ok d /\ success d = true) \/
     cache_provenance (_nonce_cache (self st)) log (_nonce_cache (self st'))).
Proof.
  induction attempts as [|attempt rest IH]; intros st.
  - simpl. split; [lia|]. split; [apply Forall_nil_2|].
    split; [apply same_identity_refl|]. split; [lia|]. split; [lia|].
    right. right. left. reflexivity.
  - cbn [for_each]. unfold bind at 1. unfold attempt_step at 1. unfold try_catch.
    pose proof (attempt_try_frame tb attempt st) as Ht.
    pose proof (FilecoinFacts.attempt_try_cases node tb attempt st) as Hc.
    destruct (attempt_try node tb attempt st) as [[[[d|]|e] st1] l1].
    + destruct Ht as (Hs & Hid & Hsig & Hsub & Hcache).
      unfold ret. rewrite !app_nil_r, Hs. simpl.
      split; [lia|]. split; [apply Forall_nil_2|].
      split; [exact Hid|]. split; [exact Hsub|]. split; [exact Hsig|].
      destruct Hcache as [(d' & [= <-] & Hd)|Hcache].
      * left. eauto.
      * right. right. exact Hcache.
    + destruct Hc as (_ & _ & []).
    + destruct Ht as (Hs & Hid & Hsig & Hsub & Hcache).
      destruct Hcache as [(d' & [=] & _)|Hcache].
      destruct (attempt_except_frame max_retries attempt e st1)
        as (r & st2 & l2 & He & Hg2 & Ha2 & Hid2 & Hc2 & Hr).
      rewrite He.
      assert (Hsub2 : submissions l2 = [] /\ builder_nonces l2 = []).
      { destruct (FilecoinFacts.attempt_except_cases node max_retries attempt e st1)
          as (r' & st2' & l2' & He' & Hs2' & _ & Hb2' & _).
        rewrite He in He'. injection He' as <- <- <-. auto. }
      destruct Hsub2 as [Hsub2 Hbn2].
      assert (Hprov : _nonce_cache (self st2) = None \/
                      (_nonce_cache (self st2) = _nonce_cache (self st) \/
                       exists n, In n (node_answers (l1 ++ l2)) /\
                                 _nonce_cache (self st2) = Some n)).
      { destruct Hc2 as [Hc2|Hc2]; [left; exact Hc2|]. right. rewrite Hc2.
        destruct Hcache as [Hcache|(n & Hn & Hcache)]; [left; exact Hcache|].
        right. exists n. unfold node_answers in *. rewrite omap_app, in_app_iff. auto. }
      destruct r as [d|].
      * destruct Hr as [Hs2 ->]. unfold ret.
        unfold sleeps, signatures, submissions, builder_nonces in *.
        rewrite !omap_app, Hs, Hs2, Hg2, Hsub2, Hbn2, !app_nil_r. simpl.
        split; [lia|]. split; [apply Forall_nil_2|].
        split; [eapply same_identity_trans; eassumption|].
        split; [lia|]. split; [lia|].
        right. unfold cache_provenance. tauto.
      * specialize (IH st2).
        destruct (for_each rest _ _ st2) as [[r3 st3] l3].
        destruct IH as (Hlen3 & Hall3 & Hid3 & Hsub3 & Hsig3 & Hc3).
        unfold sleeps, signatures, submissions, builder_nonces in *.
        rewrite !omap_app, Hs, Hg2, Hsub2, Hbn2, !app_nil_r, !length_app. simpl.
        split; [destruct Hr as [->| ->]; simpl; lia|].
        split; [destruct Hr as [->| ->]; simpl; apply Forall_cons; auto|].
        split; [eapply same_identity_trans; [|exact Hid3];
                eapply same_identity_trans; eassumption|].
        split; [lia|]. split; [lia|].
        destruct Hc3 as [Hok|Hc3]; [left; exact Hok|]. right.
        destruct Hprov as [Hnone|Hprov].
        -- rewrite Hnone in Hc3. unfold cache_provenance, node_answers in *.
           destruct Hc3 as [H|[H|(n & Hn & H)]]; [left; exact H|left; exact H|].
           right. right. exists n. rewrite !omap_app, !in_app_iff. auto.
        -- eapply cache_step; eassumption.
Qed.


(** X1: [_send_transaction_with_retry] sleeps at most [max_retries] times,
    1 or 2 seconds each time. *)
Theorem send_transaction_sleeps_bounded
    (tb : Builder W Tx) (max_retries : Z) (st : State W) :
  let log := (_send_transaction_with_retry node tb max_retries st).2 in
  (length (sleeps log) <= Z.to_nat max_retries)%nat /\
  Forall (fun q => q = 1%Q \/ q = 2%Q) (sleeps log).
Proof.
  unfold _send_transaction_with_retry.
  pose proof (send_loop_frame tb max_retries (range max_retries) st) as H.
  destruct (for_each _ _ _ st) as [[r st'] log].
  destruct H as (Hlen & Hall & _). rewrite FilecoinFacts.length_range in Hlen.
  cbn. auto.
Qed.

(** X2: a run of [_send_transaction_with_retry] leaves [chain_id],
    [private_key] and [account] as they were, signs at most as many
    transactions as it built and submits at most as many as it signed. *)
Theorem send_transaction_keeps_identity
    (tb : Builder W Tx) (max_retries : Z) (st : State W) :
  let '(r, st', log) := _send_transaction_with_retry node tb max_retries st in
  same_identity (self st) (self st') /\
  (length (submissions log) <= length (signatures log))%nat /\
  (length (signatures log) <= length (builder_nonces log))%nat.
Proof.
  unfold _send_transaction_with_retry.
  pose proof (send_loop_frame tb max_retries (range max_retries) st) as H.
  destruct (for_each _ _ _ st) as [[r st'] log].
  destruct H as (_ & _ & Hid & Hsub & Hsig & _). auto.
Qed.

(** X3: a run that does not end in success never advances the cached
    nonce: on return the cache is [None], or what it was before the run, or
    a transaction count the node answered during the run. *)
Theorem failed_run_does_not_advance_nonce
    (tb : Builder W Tx) (max_retries : Z) (st st' : State W)
    (d : TxResult) (log : list Event) :
  _send_transaction_with_retry node tb max_retries st = (Ok d, st', log) ->
  success d = false ->
  cache_provenance (_nonce_cache (self st)) log (_nonce_cache (self st')).
Proof.
  unfold _send_transaction_with_retry. intros Hrun Hd.
  pose proof (send_loop_frame tb max_retries (range max_retries) st) as H.
  rewrite Hrun in H.
  destruct H as (_ & _ & _ & _ & _ & [(d' & [= <-] & Hd')|Hprov]).
  - congruence.
  - exact Hprov.
Qed.

(** When the builder raises on every call, nothing is signed or sent. *)
Lemma failing_builder_loop (tb : Builder W Tx) (max_retries : Z) (attempts : list Z) :
  (forall nonce w, is_ok (tb nonce w).1 = false) ->
  forall st : State W,
    let '(r, st', log) :=
      for_each attempts (attempt_step node tb max_retries)
        (ret (failure_dict "Max retries exceeded")) st in
    signatures log = [] /\ submissions log = [] /\
    Forall (fun b => b = false) (builds log) /\
    exists msg, r = Ok (failure_dict msg).
Proof.
  intros Htb. induction attempts as [|attempt rest IH]; intros st.
  - simpl. repeat split; eauto.
  - cbn [for_each]. unfold bind at 1. unfold attempt_step at 1. unfold try_catch.
    assert (Htry : exists e st1 l1,
              attempt_try node tb attempt st = (Raise e, st1, l1) /\
              signatures l1 = [] /\ submissions l1 = [] /\
              Forall (fun b => b = false) (builds l1)).
    { unfold attempt_try. cbv beta iota delta [bind].
      pose proof (get_nonce_frame (0 <? attempt) st) as Hn.
      destruct (_get_nonce node (0 <? attempt) st) as [[[v|e] st1] l1].
      - destruct Hn as (_ & Hg & Hsub & _ & _ & Hb). destruct st1 as [me w1]. run_m.
        specialize (Htb v w1). destruct (tb v w1) as [[tx|e] w2]; [discriminate|].
        run_m. eexists _, _, _. split; [reflexivity|].
        unfold signatures, submissions, builds in *. rewrite !omap_app, Hg, Hsub, Hb.
        simpl. repeat split. apply Forall_cons. split; [reflexivity|apply Forall_nil_2].
      - destruct Hn as (_ & Hg & Hsub & _ & _ & Hb). eexists _, _, _.
        split; [reflexivity|]. rewrite Hb. repeat split; auto. }
    destruct Htry as (e & st1 & l1 & -> & Hg1 & Hs1 & Hb1).
    destruct (FilecoinFacts.attempt_except_cases node max_retries attempt e st1)
      as (r & st2 & l2 & He & Hs2 & _ & Hbn2 & Hd).
    destruct (attempt_except_frame max_retries attempt e st1)
      as (r' & st2' & l2' & He' & Hg2 & _).
    rewrite He in He'. injection He' as <- <- <-. rewrite He.
    assert (Hb2 : builds l2 = []).
    { unfold attempt_except in He. destruct st1 as [me w].
      destruct (is_nonce_error (str e)); [|destruct (attempt =? max_retries - 1)];
        revert He; run_m; intros [= <- <- <-]; reflexivity. }
    destruct r as [d|].
    + unfold ret. unfold signatures, submissions, builds in *.
      rewrite !omap_app, Hg1, Hs1, Hg2, Hs2, Hb2, !app_nil_r. simpl.
      repeat split; auto. exists (str e). rewrite Hd. reflexivity.
    + specialize (IH st2). destruct (for_each rest _ _ st2) as [[r3 st3] l3].
      destruct IH as (Hg3 & Hs3 & Hb3 & Hr3).
      unfold signatures, submissions, builds in *.
      rewrite !omap_app, Hg1, Hs1, Hg2, Hs2, Hb2, Hg3, Hs3, !app_nil_r. simpl.
      repeat split; auto. apply Forall_app. auto.
Qed.





(** X5: a registration whose [repo_data] lacks [github_url], [repo_hash] or
    [fingerprint] returns a failure dict; the builder is called and fails
    each time, and nothing is signed or sent. *)
Theorem registration_with_missing_key
    (repo_data : gmap string string) (st : State W) (acct : Account) :
  account (self st) = Some acct ->
  repo_data !! "github_url" = None \/ repo_data !! "repo_hash" = None \/
  repo_data !! "fingerprint" = None ->
  let '(r, st', log) := register_repository_on_chain node repo_data st in
  (exists msg, r = Ok (failure_dict msg)) /\
  signatures log = [] /\ submissions log = [] /\
  Forall (fun b => b = false) (builds log).
Proof.
  intros Ha Hmiss. unfold register_repository_on_chain.
  unfold bind at 1. unfold get at 1. cbn [self]. rewrite Ha.
  unfold try_catch. unfold bind at 1. unfold _send_transaction_with_retry.
  match goal with
  | |- context [for_each ?xs (attempt_step node ?tb ?m) ?after st] =>
      pose proof (failing_builder_loop tb m xs) as H
  end.
  lapply H.
  2:{ intros nonce w. unfold registration_call, item.
      destruct (repo_data !! "github_url"); [|reflexivity].
      destruct (repo_data !! "repo_hash"); [|reflexivity].
      destruct (repo_data !! "fingerprint"); [|reflexivity].
      destruct Hmiss as [?|[?|?]]; discriminate. }
  clear H. intros H. specialize (H st).
  destruct (for_each _ _ _ st) as [[r st1] l1].
  destruct H as (Hg & Hs & Hb & msg & ->).
  cbn. rewrite !app_nil_r. eauto.
Qed.

End Facts.

Lemma failed_run_does_not_advance_nonce_witness :
  exists st' log,
    _send_transaction_with_retry Scenario.node
      (fun _ w => (Raise (Exn "KeyError" "'github_url'"), w)) 3 Scenario.fresh
    = (Ok (failure_dict "'github_url'"), st', log) /\
    cache_provenance None log (_nonce_cache (self st')).
Proof.
  eexists _, _. split; [vm_compute; reflexivity|].
  eapply (failed_run_does_not_advance_nonce Scenario.node
            (fun _ w => (Raise (Exn "KeyError" "'github_url'"), w)) 3 Scenario.fresh).
  - vm_compute. reflexivity.
  - reflexivity.
Defined.

Lemma registration_with_missing_key_witness :
  signatures (register_repository_on_chain Scenario.node ∅ Scenario.fresh).2 = [] /\
  submissions (register_repository_on_chain Scenario.node ∅ Scenario.fresh).2 = [].
Proof.
  pose proof (registration_with_missing_key Scenario.node ∅ Scenario.fresh
                {| address := "0x742d" |} eq_refl (or_introl eq_refl)) as H.
  destruct (register_repository_on_chain Scenario.node ∅ Scenario.fresh) as [[r st'] log].
  destruct H as (_ & Hg & Hs & _). split; assumption.
Defined.

End FilecoinMore.

(** ** The pure helpers of [blockchain_utilities] *)

Module BlockchainHelpersFacts.
Import PyStr PyStrMore BlockchainHelpers.

Lemma length_prefix_of (n : nat) (s : string) :
  String.length (prefix_of n s) = Nat.min n (String.length s).
Proof.
  revert s. induction n as [|n IH]; intros [|c s]; simpl; auto.
Qed.

Lemma first_char_prefix_of (n : nat) (s : string) :
  first_char (prefix_of (S n) s) = first_char s.
Proof. destruct s; reflexivity. Qed.

Lemma lstrip_first (s : string) (c : ascii) :
  first_char (lstrip s) = Some c -> is_space c = false.
Proof.
  induction s as [|a s IH]; simpl; [discriminate|].
  destruct (is_space a) eqn:Ha; [exact IH|]. simpl. intros [= <-]. exact Ha.
Qed.

Lemma rstrip_last (s : string) (c : ascii) :
  last_char (rstrip s) = Some c -> is_space c = false.
Proof.
  induction s as [|a s IH]; simpl; [discriminate|].
  destruct (rstrip s) as [|b r] eqn:Hr.
  - destruct (is_space a) eqn:Ha; simpl; [discriminate|]. intros [= <-]. exact Ha.
  - simpl. simpl in IH. exact IH.
Qed.

Lemma last_char_lstrip (s : string) (c : ascii) :
  last_char (lstrip s) = Some c -> last_char s = Some c.
Proof.
  induction s as [|a s IH]; simpl; [discriminate|].
  destruct (is_space a).
  - intros H. specialize (IH H). destruct s; [discriminate|exact IH].
  - simpl. auto.
Qed.

Lemma strip_ends (s : string) :
  (forall c, first_char (strip s) = Some c -> is_space c = false) /\
  (forall c, last_char (strip s) = Some c -> is_space c = false).
Proof.
  unfold strip. split; intros c H.
  - eapply lstrip_first; eassumption.
  - apply last_char_lstrip in H. eapply rstrip_last; eassumption.
Qed.

Lemma last_char_prefix_of_whole (n : nat) (s : string) :
  (String.length s <= n)%nat -> prefix_of n s = s.
Proof.
  revert s. induction n as [|n IH]; intros [|c s]; simpl; intros H; auto; try lia.
  rewrite IH by lia. reflexivity.
Qed.

(** X6: [format_key_features] returns at most 5 features of at most 100
    characters each.  From a string, no feature is empty, none starts with
    a whitespace character, and one that was not cut at 100 characters does
    not end with one either. *)
Theorem format_key_features_bounds (features : Features) :
  (length (format_key_features features) <= 5)%nat /\
  (forall f, In f (format_key_features features) -> (String.length f <= 100)%nat) /\
  (forall s f,
     features = FeatureText s -> In f (format_key_features features) ->
     f <> EmptyString /\
     (forall c, first_char f = Some c -> is_space c = false) /\
     ((String.length f < 100)%nat ->
      forall c, last_char f = Some c -> is_space c = false)).
Proof.
  split; [|split].
  - destruct features as [s|l|p]; unfold format_key_features.
    + rewrite length_map, length_take. apply Nat.le_min_l.
    + rewrite length_map, length_take. apply Nat.le_min_l.
    + cbn [length]. lia.
  - intros f Hin.
    assert (H : exists g, f = prefix_of 100 g).
    { destruct features as [s|l|p]; unfold format_key_features in Hin.
      - apply in_map_iff in Hin as (g & <- & _). eauto.
      - apply in_map_iff in Hin as (g & <- & _). eauto.
      - destruct Hin as [<-|[]]. eauto. }
    destruct H as [g ->]. rewrite length_prefix_of. lia.
  - intros s f -> Hin. unfold format_key_features in Hin.
    apply in_map_iff in Hin as (g & <- & Hg).
    apply list_elem_of_In, elem_of_take in Hg as (i & Hg & _).
    apply list_elem_of_lookup_2, list_elem_of_In, in_map_iff in Hg as (raw & <- & Hraw).
    apply filter_In in Hraw as [_ Hne].
    destruct (strip_ends raw) as [Hfirst Hlast].
    destruct (strip raw) as [|a r] eqn:Hs; [discriminate|].
    split; [discriminate|]. split.
    + intros c. rewrite first_char_prefix_of. apply Hfirst.
    + intros Hlen c. rewrite length_prefix_of in Hlen.
      rewrite last_char_prefix_of_whole by lia. apply Hlast.
Qed.

(** X7: [SubmissionTypeEnum.validate] accepts exactly the values that
    [get_name] knows: the name is "Unknown" exactly for a rejected value. *)
Theorem validate_iff_named (value : Z) :
  validate value = true <-> get_name value <> "Unknown".
Proof.
  unfold validate, get_name.
  destruct (value =? 0); [split; [discriminate|reflexivity]|].
  destruct (value =? 1); [split; [discriminate|reflexivity]|].
  destruct (value =? 2); [split; [discriminate|reflexivity]|].
  split; [discriminate|]. intros H. contradiction.
Qed.

Lemma hex_digit_plain (c : ascii) :
  hex_digit c = true ->
  int_space c = false /\ Ascii.eqb c "+" = false /\ Ascii.eqb c "-" = false /\
  Ascii.eqb c "_" = false /\ Ascii.eqb c "x" = false /\ Ascii.eqb c "X" = false.
Proof.
  destruct c as [[] [] [] [] [] [] [] []]; intros H; try discriminate H;
    repeat split; reflexivity.
Qed.

Lemma scan_all_hex (s : string) (consumed : bool) :
  all_hex s = true -> consumed || nonempty s = true ->
  scan_digits false consumed s = Some EmptyString.
Proof.
  revert consumed. induction s as [|c s IH]; intros consumed Hs Hc; simpl in *.
  - rewrite orb_false_r in Hc. rewrite Hc. reflexivity.
  - apply andb_true_iff in Hs as [Hh Hs].
    destruct (hex_digit_plain c Hh) as (_ & _ & _ & Hu & _).
    rewrite Hu, Hh. apply IH; [exact Hs|reflexivity].
Qed.

Lemma int16_parses_hex (s : string) :
  all_hex s = true -> nonempty s = true -> int16_parses s = true.
Proof.
  intros Hs Hne. destruct s as [|c s]; [discriminate|].
  pose proof Hs as Hs'. simpl in Hs'. apply andb_true_iff in Hs' as [Hh Hrest].
  destruct (hex_digit_plain c Hh) as (Hsp & Hp & Hm & Hu & Hx & HX).
  unfold int16_parses. cbn [skip_spaces]. rewrite Hsp.
  cbn [skip_sign]. rewrite Hp, Hm. cbn [orb].
  assert (Hpre : skip_prefix (String c s) = String c s).
  { cbn [skip_prefix]. destruct s as [|c1 s]; [reflexivity|].
    simpl in Hrest. apply andb_true_iff in Hrest as [Hh1 _].
    destruct (hex_digit_plain c1 Hh1) as (_ & _ & _ & _ & Hx1 & HX1).
    rewrite Hx1, HX1, andb_false_r. reflexivity. }
  rewrite Hpre, Hu, (scan_all_hex (String c s) false Hs Hne). reflexivity.
Qed.

(** X8: [validate_ethereum_address] accepts every address made of [0x] and
    40 hexadecimal digits, and whatever it accepts has 42 characters and
    starts with [0x]. *)
Theorem validate_ethereum_address_sound (address digits : string) :
  (all_hex digits = true -> String.length digits = 40%nat ->
   validate_ethereum_address ("0x" +:+ digits) = true) /\
  (validate_ethereum_address address = true ->
   startswith "0x" address = true /\ String.length address = 42%nat).
Proof.
  split.
  - intros Hh Hl. unfold validate_ethereum_address.
    cbv beta iota delta [String.append]. cbn [nonempty negb startswith Ascii.eqb Bool.eqb andb].
    cbn [String.length]. rewrite Hl. cbn [Nat.eqb negb suffix_from].
    apply int16_parses_hex; [exact Hh|]. destruct digits; [discriminate|reflexivity].
  - unfold validate_ethereum_address. intros H.
    destruct (nonempty address); [|discriminate].
    destruct (startswith "0x" address); [|discriminate].
    destruct (String.length address =? 42)%nat eqn:Hl; [|discriminate].
    apply Nat.eqb_eq in Hl. auto.
Qed.

Lemma validate_ethereum_address_sound_witness :
  validate_ethereum_address "0x742d35Cc6631C0532925a3b8D42C85f5c7456d0f" = true.
Proof.
  apply (proj1 (validate_ethereum_address_sound EmptyString
                  "742d35Cc6631C0532925a3b8D42C85f5c7456d0f")); reflexivity.
Defined.

Lemma int16_parses_plain (digits : string) :
  all_hex digits = true -> nonempty digits = true ->
  skip_prefix digits = digits /\
  match digits with
  | String c _ =>
      if Ascii.eqb c "_" then false
      else match scan_digits false false digits with
           | Some rest => all_spaces rest
           | None => false
           end
  | EmptyString => false
  end = true.
Proof.
  intros Hh Hne. destruct digits as [|c s]; [discriminate|].
  pose proof Hh as Hh'. simpl in Hh'. apply andb_true_iff in Hh' as [Hc Hrest].
  destruct (hex_digit_plain c Hc) as (_ & _ & _ & Hu & _). split.
  - cbn [skip_prefix]. destruct s as [|c1 s]; [reflexivity|].
    simpl in Hrest. apply andb_true_iff in Hrest as [Hc1 _].
    destruct (hex_digit_plain c1 Hc1) as (_ & _ & _ & _ & Hx1 & HX1).
    rewrite Hx1, HX1, andb_false_r. reflexivity.
  - rewrite Hu, (scan_all_hex (String c s) false Hh Hne). reflexivity.
Qed.

Lemma int16_parses_prefixed (digits : string) :
  all_hex digits = true -> nonempty digits = true ->
  int16_parses (String "0" (String "x" digits)) = true.
Proof.
  intros Hh Hne. destruct (int16_parses_plain digits Hh Hne) as [_ Hscan].
  unfold int16_parses. cbn [skip_spaces].
  change (int_space "0") with false. cbn [skip_sign].
  change (Ascii.eqb "0" "+" || Ascii.eqb "0" "-") with false. cbn [skip_prefix].
  change (Ascii.eqb "0" "0" && (Ascii.eqb "x" "x" || Ascii.eqb "x" "X")) with true.
  cbv iota.
  destruct digits as [|c s]; [discriminate|].
  pose proof Hh as Hh'. simpl in Hh'. apply andb_true_iff in Hh' as [Hc _].
  destruct (hex_digit_plain c Hc) as (_ & _ & _ & Hu & _).
  rewrite Hu. exact Hscan.
Qed.

Lemma int16_parses_signed (sign : ascii) (digits : string) :
  sign = "+"%char \/ sign = "-"%char ->
  all_hex digits = true -> nonempty digits = true ->
  int16_parses (String sign digits) = true.
Proof.
  intros Hsign Hh Hne. destruct (int16_parses_plain digits Hh Hne) as [Hp Hscan].
  unfold int16_parses. cbn [skip_spaces].
  destruct Hsign as [-> | ->].
  - change (int_space "+") with false. cbn [skip_sign].
    change (Ascii.eqb "+" "+" || Ascii.eqb "+" "-") with true. cbv iota.
    rewrite Hp. exact Hscan.
  - change (int_space "-") with false. cbn [skip_sign].
    change (Ascii.eqb "-" "+" || Ascii.eqb "-" "-") with true. cbv iota.
    rewrite Hp. exact Hscan.
Qed.

(** X9: the digits of an address are checked with [int(_, 16)], which
    takes a sign and a second [0x]: [validate_ethereum_address] also accepts
    [0x0x] followed by 38 hexadecimal digits, and [0x+] or [0x-] followed
    by 39. *)
Theorem validate_ethereum_address_accepts_more (digits : string) :
  all_hex digits = true ->
  (String.length digits = 38%nat ->
   validate_ethereum_address ("0x0x" +:+ digits) = true) /\
  (String.length digits = 39%nat ->
   validate_ethereum_address ("0x+" +:+ digits) = true /\
   validate_ethereum_address ("0x-" +:+ digits) = true).
Proof.
  intros Hh.
  assert (Hne : forall n, String.length digits = S n -> nonempty digits = true).
  { intros n Hl. destruct digits; [discriminate|reflexivity]. }
  split.
  - intros Hl. unfold validate_ethereum_address.
    cbv beta iota delta [String.append].
    cbn [nonempty negb startswith Ascii.eqb Bool.eqb andb].
    cbn [String.length]. rewrite Hl. cbn [Nat.eqb negb suffix_from].
    apply int16_parses_prefixed; [exact Hh|]. eapply Hne, Hl.
  - intros Hl.
    split; unfold validate_ethereum_address;
      cbv beta iota delta [String.append];
      cbn [nonempty negb startswith Ascii.eqb Bool.eqb andb];
      cbn [String.length]; rewrite Hl; cbn [Nat.eqb negb suffix_from];
      (apply int16_parses_signed; [auto|exact Hh|eapply Hne, Hl]).
Qed.

Lemma validate_ethereum_address_accepts_more_witness :
  validate_ethereum_address "0x0x2d35Cc6631C0532925a3b8D42C85f5c7456d0f" = true /\
  validate_ethereum_address "0x-42d35Cc6631C0532925a3b8D42C85f5c7456d0f" = true.
Proof.
  split.
  - apply (proj1 (validate_ethereum_address_accepts_more
                    "2d35Cc6631C0532925a3b8D42C85f5c7456d0f" eq_refl)). reflexivity.
  - apply (proj2 (validate_ethereum_address_accepts_more
                    "42d35Cc6631C0532925a3b8D42C85f5c7456d0f" eq_refl)). reflexivity.
Defined.

End BlockchainHelpersFacts.

(** ** URLs, the local fall-back and the availability check *)

Module IPFSAccessFacts.
Import PyStr PyStrMore Py IPFSUtils IPFSAccess.

Section CheckFacts.
Context {W : Type} (web : Web W).

Lemma probe_cases (timeout : Z) (gateway_url : string) (w : W) :
  exists (r : Res Z) (w' : W),
    probe web timeout gateway_url w
    = (Ok (if is_200 r then Some (Some true) else None), w',
       [Head gateway_url r]).
Proof.
  unfold probe, try_catch, bind, ret.
  destruct (head web gateway_url timeout w) as [[code|e] w'].
  - exists (Ok code), w'. cbn [is_200]. destruct (code =? 200) eqn:Hc.
    + reflexivity.
    + destruct (code =? 404); reflexivity.
  - exists (Raise e), w'. reflexivity.
Qed.

Lemma is_200_spec (r : Res Z) : is_200 r = true <-> r = Ok 200.
Proof.
  destruct r as [code|e]; cbn; [|split; discriminate].
  rewrite Z.eqb_eq. split; [intros ->; reflexivity|intros [= ->]; reflexivity].
Qed.

(** One pass over the gateways [gs], followed by [after]. *)
Lemma gateways_pass (timeout : Z) (gs : list string)
    (after : M Event W (option bool)) :
  (forall w, exists w' l, after w = (Ok None, w', l) /\ heads l = []) ->
  forall w : W,
    let '(r, w', log) := for_each gs (probe web timeout) after w in
    (length (heads log) <= length gs)%nat /\
    Forall (fun hd => In hd.1 gs) (heads log) /\
    ((r = Ok (Some true) /\ pauses log = [] /\ List.Exists answered_200 (heads log)) \/
     (r = Ok None /\ ~ List.Exists answered_200 (heads log) /\
      exists w0 l, (after w0).2 = l /\ pauses log = pauses l)).
Proof.
  intros Hafter. induction gs as [|g gs IH]; intros w.
  - cbn [for_each]. destruct (Hafter w) as (w' & l & Ha & Hh). rewrite Ha, Hh.
    split; [simpl; lia|]. split; [apply Forall_nil_2|]. right.
    split; [reflexivity|]. split; [intros H; inversion H|].
    exists w, l. rewrite Ha. auto.
  - cbn [for_each]. unfold bind at 1.
    destruct (probe_cases timeout g w) as (r0 & w1 & ->).
    destruct (is_200 r0) eqn:Hr.
    + apply is_200_spec in Hr. subst r0. unfold ret. cbn.
      split; [lia|]. split; [apply Forall_cons; split; [left; reflexivity|apply Forall_nil_2]|].
      left. split; [reflexivity|]. split; [reflexivity|].
      apply Exists_cons_hd. reflexivity.
    + assert (Hr' : r0 <> Ok 200).
      { intros H200. apply is_200_spec in H200. congruence. }
      specialize (IH w1). destruct (for_each gs _ after w1) as [[r w'] log].
      destruct IH as (Hlen & Hall & Hcase).
      unfold heads, pauses in *. cbn.
      split; [lia|].
      split.
      { apply Forall_cons. split; [left; reflexivity|].
        eapply Forall_impl; [exact Hall|]. intros hd Hin. right. exact Hin. }
      destruct Hcase as [(-> & Hp & Hex)|(-> & Hnex & Hp)].
      * left. split; [reflexivity|]. split; [exact Hp|]. apply Exists_cons_tl. exact Hex.
      * right. split; [reflexivity|]. split; [|exact Hp].
        intros Hex. apply Exists_cons in Hex as [Hhd|Htl]; [|contradiction].
        unfold answered_200 in Hhd. simpl in Hhd. contradiction.
Qed.

Lemma verification_loop (gateways : list string) (max_retries timeout : Z) (k : nat) :
  forall (i : nat) (w : W),
    (i + k)%nat = Z.to_nat max_retries ->
    let '(r, w', log) :=
      for_each (map Z.of_nat (seq i k))
        (verification_attempt web gateways max_retries timeout) (ret false) w in
    exists b, r = Ok b /\
      (b = true <-> List.Exists answered_200 (heads log)) /\
      (length (heads log) <= length (take 2 gateways) * k)%nat /\
      (length (pauses log) <= k - 1)%nat /\
      Forall (fun q => q = 5%Q) (pauses log) /\
      Forall (fun hd => In hd.1 (take 2 gateways)) (heads log).
Proof.
  induction k as [|k IH]; intros i w Hik.
  - cbn. exists false. split; [reflexivity|]. split.
    + split; [discriminate|]. intros H; inversion H.
    + repeat split; try lia; apply Forall_nil_2.
  - cbn [seq map for_each]. unfold bind at 1. unfold verification_attempt at 1.
    pose proof (gateways_pass timeout (take 2 gateways)
                  (if Z.of_nat i <? max_retries - 1
                   then let* _ := (fun w0 => (Ok tt, pause web 5 w0, [Slept 5])) in ret None
                   else ret None)) as Hpass.
    lapply Hpass.
    2:{ intros w0. destruct (Z.of_nat i <? max_retries - 1); unfold bind, ret;
        eexists _, _; split; reflexivity. }
    clear Hpass. intros Hpass. specialize (Hpass w).
    destruct (for_each (take 2 gateways) _ _ w) as [[r1 w1] l1].
    destruct Hpass as (Hlen & Hall & Hcase).
    destruct Hcase as [(-> & Hp & Hex)|(-> & Hnex & w0 & l0 & Hl0 & Hp)].
    + unfold ret. exists true. rewrite app_nil_r. split; [reflexivity|].
      split; [tauto|]. rewrite Hp. split; [lia|]. split; [simpl; lia|].
      split; [apply Forall_nil_2|exact Hall].
    + assert (Hik' : (S i + k)%nat = Z.to_nat max_retries) by lia.
      specialize (IH (S i) w1 Hik').
      destruct (for_each (map Z.of_nat (seq (S i) k)) _ _ w1) as [[r2 w2] l2].
      destruct IH as (b & -> & Hb & Hlen2 & Hp2 & Hall5 & Hall2).
      exists b. split; [reflexivity|].
      unfold heads, pauses in *. rewrite !omap_app, !length_app, Hp.
      split.
      { rewrite Hb, Exists_app. tauto. }
      split; [lia|].
      assert (Hpl : (length (omap (fun ev => match ev with Slept q => Some q | _ => None end) l0)
                     <= (if k is O then 0 else 1))%nat /\
                    Forall (fun q => q = 5%Q)
                      (omap (fun ev => match ev with Slept q => Some q | _ => None end) l0)).
      { subst l0. destruct (Z.of_nat i <? max_retries - 1) eqn:Hlt; unfold bind, ret; cbn.
        - apply Z.ltb_lt in Hlt. destruct k; [lia|].
          split; [lia|]. apply Forall_cons. split; [reflexivity|apply Forall_nil_2].
        - split; [lia|apply Forall_nil_2]. }
      destruct Hpl as [Hpl Hp5].
      split; [destruct k; simpl in *; lia|].
      split; apply Forall_app; auto.
Qed.

(** X12: the availability check never raises.  A hash that does not
    validate is reported unavailable without any request; a local path is
    only looked up in the file system.  Otherwise the check answers True
    exactly when
    a HEAD request was answered with status 200; it asks only the first two
    gateways, at most [2 * max_retries] times in all, and pauses 5 seconds
    at most [max_retries - 1] times. *)
Theorem availability_check (ipfs_hash : string) (max_retries timeout : Z) (w : W) :
  let '(r, w', log) := _verify_ipfs_content_with_retry web ipfs_hash max_retries timeout w in
  exists b, r = Ok b /\
    (validate_ipfs_hash ipfs_hash = false -> b = false /\ log = []) /\
    (startswith "local://" ipfs_hash = true ->
     log = [Exists (replace "local://" EmptyString ipfs_hash) b]) /\
    (validate_ipfs_hash ipfs_hash = true -> startswith "local://" ipfs_hash = false ->
     (b = true <-> List.Exists answered_200 (heads log)) /\
     (length (heads log) <= 2 * Z.to_nat max_retries)%nat /\
     (length (pauses log) <= Z.to_nat max_retries - 1)%nat /\
     Forall (fun q => q = 5%Q) (pauses log) /\
     Forall (fun hd => hd.1 = "https://ipfs.io/ipfs/" +:+ ipfs_hash \/
                       hd.1 = "https://gateway.pinata.cloud/ipfs/" +:+ ipfs_hash)
            (heads log)).
Proof.
  unfold _verify_ipfs_content_with_retry.
  destruct (validate_ipfs_hash ipfs_hash) eqn:Hv; cbn [negb].
  2:{ unfold ret. exists false. split; [reflexivity|]. split; [auto|].
      split; [|discriminate]. intros Hl.
      unfold validate_ipfs_hash in Hv. rewrite Hl in Hv.
      destruct (String.eqb ipfs_hash EmptyString) eqn:He.
      - apply String.eqb_eq in He. subst. discriminate.
      - destruct (startswith "Qm" ipfs_hash && _); [discriminate|].
        destruct (startswith "b" ipfs_hash && _); discriminate. }
  destruct (startswith "local://" ipfs_hash) eqn:Hl.
  { destruct (file_exists web _ w) as [b w']. exists b.
    split; [reflexivity|]. split; [discriminate|]. split; [reflexivity|discriminate]. }
  unfold range.
  pose proof (verification_loop (generate_ipfs_urls ipfs_hash) max_retries timeout
                (Z.to_nat max_retries) 0%nat w eq_refl) as H.
  destruct (for_each _ _ _ w) as [[r w'] log].
  destruct H as (b & -> & Hb & Hlen & Hp & H5 & Hall).
  exists b. split; [reflexivity|]. split; [discriminate|].
  split; [discriminate|]. intros _ _.
  assert (Hg : take 2 (generate_ipfs_urls ipfs_hash)
               = ["https://ipfs.io/ipfs/" +:+ ipfs_hash;
                  "https://gateway.pinata.cloud/ipfs/" +:+ ipfs_hash]).
  { unfold generate_ipfs_urls. rewrite Hv, Hl. reflexivity. }
  rewrite Hg in Hlen, Hall. cbn [length] in Hlen.
  split; [exact Hb|]. split; [lia|]. split; [exact Hp|]. split; [exact H5|].
  eapply Forall_impl; [exact Hall|]. intros hd [H|[H|[]]]; auto.
Qed.

End CheckFacts.
Lemma rstrip_slash_snoc (g : string) :
  rstrip_slash (g +:+ "/") = rstrip_slash g.
Proof.
  induction g as [|c g IH].
  - reflexivity.
  - change (String c g +:+ "/") with (String c (g +:+ "/")).
    cbn [rstrip_slash]. rewrite IH. reflexivity.
Qed.

Lemma nonempty_snoc (g : string) : nonempty (g +:+ "/") = true.
Proof. destruct g; reflexivity. Qed.

(** X13: [get_ipfs_url] raises [ValueError] on a hash that does not
    validate.  For an accepted hash that is not a local path, the default
    URL is the first of [generate_ipfs_urls], and [extract_cid_from_url]
    gives the hash back from it when the hash has no [/]; with a preferred
    gateway, a trailing [/] on the gateway does not change the URL. *)
Theorem get_ipfs_url_contract (ipfs_hash : string) :
  (validate_ipfs_hash ipfs_hash = false ->
   forall g, get_ipfs_url ipfs_hash g
             = Raise (Exn "ValueError" ("Invalid IPFS hash: " +:+ ipfs_hash))) /\
  (validate_ipfs_hash ipfs_hash = true -> startswith "local://" ipfs_hash = false ->
   (exists u, get_ipfs_url ipfs_hash None = Ok u /\
              List.hd_error (generate_ipfs_urls ipfs_hash) = Some u /\
              (contains "/" ipfs_hash = false -> extract_cid_from_url u = Some ipfs_hash)) /\
   (forall g, nonempty g = true ->
              get_ipfs_url ipfs_hash (Some (g +:+ "/")) = get_ipfs_url ipfs_hash (Some g))).
Proof.
  split.
  - intros Hv g. unfold get_ipfs_url. rewrite Hv. reflexivity.
  - intros Hv Hl. split.
    + exists ("https://ipfs.io/ipfs/" +:+ ipfs_hash).
      unfold get_ipfs_url, generate_ipfs_urls. rewrite Hv, Hl. cbn [negb].
      split; [reflexivity|]. split; [reflexivity|].
      intros Hc. apply (IPFSUtilsFacts.extract_from_gateway ipfs_hash Hv Hc).
    + intros g Hg. unfold get_ipfs_url. rewrite Hv, Hl. cbn [negb].
      rewrite nonempty_snoc, Hg, rstrip_slash_snoc. reflexivity.
Qed.

Lemma get_ipfs_url_contract_witness :
  get_ipfs_url "QmYwAPJzv5CZsnA625s3Xf2nemtYgPpHdWEz79ojWnPbdG" (Some "https://dweb.link/")
  = get_ipfs_url "QmYwAPJzv5CZsnA625s3Xf2nemtYgPpHdWEz79ojWnPbdG" (Some "https://dweb.link").
Proof.
  apply (proj2 (proj2 (get_ipfs_url_contract
                         "QmYwAPJzv5CZsnA625s3Xf2nemtYgPpHdWEz79ojWnPbdG")
                 eq_refl eq_refl) "https://dweb.link" eq_refl).
Defined.

End IPFSAccessFacts.

(** ** The local fall-back of the upload *)

Module UploadFallbackFacts.
Import PyStr Py IPFSUtils EnhancedIPFSManager.

Section Facts.
Context {W : Type} (storage : Storage W).

(** X10: what [_fallback_local_storage] returns is accepted by
    [validate_ipfs_hash], is its own only gateway URL, and is returned as it
    is by [get_ipfs_url]. *)
Theorem local_fallback_is_accepted
    (self : Manager) (file_path h : string) (w w' : W) :
  _fallback_local_storage storage self file_path w = (Ok h, w') ->
  validate_ipfs_hash h = true /\
  generate_ipfs_urls h = [h] /\
  forall g, IPFSAccess.get_ipfs_url h g = Ok h.
Proof.
  unfold _fallback_local_storage.
  destruct (abspath storage file_path w) as [[p|e] w1]; intros [= <- <-].
  split; [reflexivity|]. split; [reflexivity|]. intros g. reflexivity.
Qed.

Lemma fallback_iteration self file_path metadata (w : W) :
  (forall p w0, is_ok (abspath storage p w0).1 = true) ->
  exists h w',
    iteration storage self file_path metadata "local_file" w
    = (Ok (Some h), w', [Tried "local_file" (Ok h)]).
Proof.
  intros Habs. unfold iteration, try_catch, bind, tried, ret.
  cbn [String.eqb Ascii.eqb Bool.eqb andb]. unfold _fallback_local_storage.
  specialize (Habs file_path w).
  destruct (abspath storage file_path w) as [[p|e] w1]; [|discriminate].
  eexists _, _. reflexivity.
Qed.

Lemma services_loop_succeeds self file_path metadata (services : list string) :
  (forall p w0, is_ok (abspath storage p w0).1 = true) ->
  In "local_file" services ->
  forall w : W,
    exists h, (for_each services (iteration storage self file_path metadata)
                 (raise (Exn "Exception" "All IPFS upload methods failed")) w).1.1 = Ok h.
Proof.
  intros Habs. induction services as [|s rest IH]; intros Hin w; [destruct Hin|].
  cbn [for_each]. unfold bind at 1.
  destruct (String.eqb s "local_file") eqn:Hs.
  - apply String.eqb_eq in Hs. subst s.
    destruct (fallback_iteration self file_path metadata w Habs) as (h & w' & ->).
    unfold ret. cbn. eauto.
  - destruct (iteration storage self file_path metadata s w) as [[[[h|]|e] w1] l1] eqn:Hit.
    + unfold ret. cbn. eauto.
    + destruct Hin as [Heq|Hin];
        [rewrite Heq, String.eqb_refl in Hs; discriminate|].
      destruct (IH Hin w1) as [h Hh].
      destruct (for_each rest _ _ w1) as [[r w2] l2]. cbn in *. eauto.
    + exfalso. unfold iteration, try_catch in Hit.
      destruct (_ w) as [[[a|e'] w0] l0] in Hit; [discriminate|].
      unfold ret in Hit. discriminate.
Qed.

(** X11: when the path exists and [os.path.abspath] returns, the upload of
    a manager built by [__init__] always returns a hash: the local file
    fall-back closes the list of services, so "All IPFS upload methods
    failed" cannot be raised. *)
Theorem upload_of_existing_file_returns
    (config : gmap string string) (file_path : string)
    (metadata : option (gmap string string)) (w : W) :
  (path_exists storage file_path w).1 = true ->
  (forall p w0, is_ok (abspath storage p w0).1 = true) ->
  exists h, (upload_to_ipfs storage (init config) file_path metadata w).1.1 = Ok h.
Proof.
  intros Hex Habs. unfold upload_to_ipfs. unfold bind at 1.
  destruct (path_exists storage file_path w) as [b w1]. simpl in Hex. subst b.
  cbn [negb].
  assert (Hin : In "local_file" (service_priority (init config))).
  { rewrite EnhancedIPFSManagerFacts.priority_of_init. unfold expected_priority.
    rewrite !in_app_iff. right. right. cbn. auto. }
  destruct (services_loop_succeeds (init config) file_path metadata _ Habs Hin w1) as [h Hh].
  destruct (for_each _ _ _ w1) as [[r w2] l2]. cbn in *. eauto.
Qed.

End Facts.

Lemma local_fallback_is_accepted_witness :
  validate_ipfs_hash "local:///tmp/license.pdf" = true.
Proof.
  apply (local_fallback_is_accepted demo_storage (init demo_config)
           "/tmp/license.pdf" "local:///tmp/license.pdf" 0%nat 0%nat eq_refl).
Defined.

Lemma upload_of_existing_file_returns_witness :
  exists h, (upload_to_ipfs demo_storage (init ∅) "/tmp/license.pdf" None 0%nat).1.1 = Ok h.
Proof.
  apply (upload_of_existing_file_returns demo_storage ∅ "/tmp/license.pdf" None 0%nat).
  - reflexivity.
  - intros p w0. reflexivity.
Defined.

End UploadFallbackFacts.

(** ** The scan's lists, the bounty claim, suggestions and queries *)

Module AgentMoreFacts.
Import Py Agent AgentMore.

Section ScanFacts.
Context {W : Type} (format_int : Z -> string) (format_percent : Q -> string)
        (services : Services W).

Lemma grows_refl acc : grows acc acc [].
Proof. split; [auto|simpl; lia]. Qed.

Lemma grows_trans a b c l1 l2 :
  grows a b l1 -> grows b c l2 -> grows a c (l1 ++ l2).
Proof.
  unfold grows, dmca_generated. intros [H1 L1] [H2 L2].
  split; [auto|]. rewrite omap_app, length_app. lia.
Qed.

Lemma fold_each_grows {Item : Type}
    (body : Item -> list Violation * list DmcaResult ->
            M Agent.Event W (list Violation * list DmcaResult)) :
  (forall x acc w,
     match (body x acc w).1.1 with Ok acc' => grows acc acc' (body x acc w).2 | Raise _ => True end) ->
  forall xs acc w,
    match (fold_each xs body acc w).1.1 with
    | Ok acc' => grows acc acc' (fold_each xs body acc w).2
    | Raise _ => True
    end.
Proof.
  intros Hbody xs. induction xs as [|x xs IH]; intros acc w.
  - cbn. apply grows_refl.
  - cbn [fold_each]. unfold bind.
    specialize (Hbody x acc w).
    destruct (body x acc w) as [[[acc1|e] w1] l1]; cbn in *; [|exact I].
    specialize (IH acc1 w1).
    destruct (fold_each xs body acc1 w1) as [[[acc2|e] w2] l2]; cbn in *; [|exact I].
    eapply grows_trans; eassumption.
Qed.

Lemma scan_similar_grows repo similar_repo acc (w : W) :
  match (scan_similar services repo similar_repo acc w).1.1 with
  | Ok acc' => grows acc acc' (scan_similar services repo similar_repo acc w).2
  | Raise _ => True
  end.
Proof.
  unfold scan_similar.
  destruct (String.eqb (url similar_repo) (github_url repo)); [apply grows_refl|].
  unfold bind, compare, generate_dmca.
  destruct (compare_repository_code services _ _ w) as [[c|e] w1]; [|exact I].
  destruct (Qgtb (score_of c) threshold) eqn:Hs; [|cbn; split; [auto|lia]].
  destruct (_generate_and_file_dmca services repo (url similar_repo) c w1)
    as [[i h|err] w2]; cbn; [|split; [auto|lia]].
  split. 2:{ cbn. rewrite length_app. cbn. lia. }
  intros (Hlen & Hv & Hn). unfold well_formed. cbn.
  rewrite !length_app, Hlen. split; [reflexivity|]. split.
  - apply Forall_app. split; [exact Hv|].
    apply Forall_cons. split; [|apply Forall_nil_2]. cbn.
    split; [apply PyFacts.Qgtb_true; exact Hs|reflexivity].
  - apply Forall_app. split; [exact Hn|].
    apply Forall_cons. split; [reflexivity|apply Forall_nil_2].
Qed.

Lemma scan_repo_grows repo acc (w : W) :
  match (scan_repo services repo acc w).1.1 with
  | Ok acc' => grows acc acc' (scan_repo services repo acc w).2
  | Raise _ => True
  end.
Proof.
  unfold scan_repo, bind, quiet.
  destruct (search_similar_repositories services _ _ w) as [[similar|e] w1]; [|exact I].
  pose proof (fold_each_grows (scan_similar services repo)
                (scan_similar_grows repo) similar acc w1) as H.
  destruct (fold_each similar _ acc w1) as [[[acc'|e] w2] l2]; cbn in *; [|exact I].
  exact H.
Qed.

Lemma well_formed_nil : well_formed ([], []).
Proof. repeat split; apply Forall_nil_2. Qed.

(** X14: [scan_and_report_violations] never raises, and in the dict of
    a finished scan the violations and the notices go in pairs: as many of
    the one as of the other, at most one per DMCA notice generated, every
    violation with a score above 0.7 and flagged as filed, every notice a
    success; at least one repository was scanned. *)
Theorem scan_result_is_well_formed (repo_id : option Z) (w : W) :
  let '(r, w', log) := scan_and_report_violations format_int services repo_id w in
  exists res, r = Ok res /\
    match res with
    | ScanDone n violations notices =>
        (0 < n)%nat /\ well_formed (violations, notices) /\
        (length notices <= length (dmca_generated log))%nat
    | ScanError _ => True
    end.
Proof.
  assert (Hrepos : forall repos w0,
            match (scan_repos services repos w0).1.1 with
            | Ok (ScanDone n vs ns) =>
                (0 < n)%nat /\ well_formed (vs, ns) /\
                (length ns <= length (dmca_generated (scan_repos services repos w0).2))%nat
            | _ => True
            end).
  { intros repos w0. unfold scan_repos. destruct repos as [|r0 rs]; [exact I|].
    unfold bind.
    pose proof (fold_each_grows (scan_repo services) scan_repo_grows
                  (r0 :: rs) ([], []) w0) as H.
    destruct (fold_each (r0 :: rs) _ _ w0) as [[[acc|e] w1] l1]; cbn in *; [|exact I].
    destruct H as [Hwf Hlen]. rewrite app_nil_r.
    split; [lia|]. split; [destruct acc; apply Hwf, well_formed_nil|exact Hlen]. }
  unfold scan_and_report_violations, try_catch.
  destruct (given repo_id) as [n|]; unfold bind at 1; unfold quiet.
  - destruct (_get_repository_by_id services n w) as [[[repo|]|e] w1];
      [|unfold ret; eexists; split; [reflexivity|exact I]..].
    specialize (Hrepos [repo] w1).
    destruct (scan_repos services [repo] w1) as [[[res|e] w2] l2]; cbn in *.
    + exists res. split; [reflexivity|]. destruct res; [|exact I]. exact Hrepos.
    + eexists. split; [reflexivity|exact I].
  - destruct (_get_all_registered_repositories services w) as [[repos|e] w1];
      [|unfold ret; eexists; split; [reflexivity|exact I]].
    specialize (Hrepos repos w1).
    destruct (scan_repos services repos w1) as [[[res|e] w2] l2]; cbn in *.
    + exists res. split; [reflexivity|]. destruct res; [|exact I]. exact Hrepos.
    + eexists. split; [reflexivity|exact I].
Qed.

(** X15: without a repository id ([None] or 0) a bounty claim is refused
    at once, with no call to the chain, the scanner or the DMCA pipeline:
    [_find_best_matching_repo] finds nothing. *)
Theorem bounty_needs_a_repository_id
    (infringing : string) (original_repo_id : option Z) (w : W) :
  original_repo_id = None \/ original_repo_id = Some 0 ->
  report_infringement_bounty format_int format_percent services
    infringing original_repo_id w
  = (Ok (BountyError "No matching registered repository found" None None), w, []).
Proof.
  intros [-> | ->]; reflexivity.
Qed.

(** X16: a bounty claim that is granted has a score of at least 0.7, an
    amount of [min(2, 2 * score)] tFIL, hence between 1.4 and 2, and a
    DMCA notice that succeeded; exactly one comparison and one notice were
    made for it. *)
Theorem granted_bounty_claim
    (infringing : string) (original_repo_id : option Z) (w w' : W)
    (log : list Agent.Event) (amount score : Q) (currency status : string)
    (notice : DmcaResult) :
  report_infringement_bounty format_int format_percent services
    infringing original_repo_id w
  = (Ok (BountyClaim amount currency score notice status), w', log) ->
  (threshold <= score)%Q /\
  amount = _calculate_bounty_amount score /\
  (14 # 10 <= amount)%Q /\ (amount <= 2)%Q /\
  currency = "tFIL" /\ status = "pending_verification" /\
  dmca_success notice = true /\
  length (dmca_generated log) = 1%nat /\ length (not_below_threshold log) = 1%nat.
Proof.
  unfold report_infringement_bounty.
  destruct (given original_repo_id) as [n|]; [|cbn; discriminate].
  unfold claim_for, try_catch, bind, quiet, compare, generate_dmca, ret.
  destruct (_get_repository_by_id services n w) as [[[repo|]|e] w1]; cbn; try discriminate.
  destruct (compare_repository_code services (github_url repo) infringing w1)
    as [[c|e] w2]; cbn; try discriminate.
  destruct (Qgtb threshold (score_of c)) eqn:Hs; cbn; [discriminate|].
  destruct (_generate_and_file_dmca services repo infringing c w2) as [[i h|err] w3];
    cbn; [|discriminate].
  intros [= <- <- <- <- <- <- <-].
  pose proof (proj1 (PyFacts.Qgtb_false _ _) Hs) as Hle.
  split; [exact Hle|]. split; [reflexivity|].
  assert (Hlists : length (dmca_generated
                             [Compared (github_url repo) infringing (Ok c);
                              GeneratedDMCA (github_url repo) infringing (DmcaFiled i h)])
                   = 1%nat /\
                   length (not_below_threshold
                             [Compared (github_url repo) infringing (Ok c);
                              GeneratedDMCA (github_url repo) infringing (DmcaFiled i h)])
                   = 1%nat).
  { split; [reflexivity|].
    unfold not_below_threshold, compared_where.
    change (length (match (if negb (Qgtb threshold (score_of c))
                           then Some (github_url repo, infringing) else None) with
                    | Some y => [y]
                    | None => []
                    end) = 1%nat).
    rewrite Hs. reflexivity. }
  unfold _calculate_bounty_amount, threshold in *.
  destruct (Qgtb (score_of c * 2) 2) eqn:Hm.
  - repeat split; try lra; apply Hlists.
  - apply PyFacts.Qgtb_false in Hm. repeat split; try lra; apply Hlists.
Qed.

End ScanFacts.
(** A service set in which the comparison gives 0.9 and the notice is
    filed, to run the bounty path. *)
Lemma granted_bounty_claim_witness :
  let services : Services nat := {|
    _get_repository_by_id := fun n w =>
      (Ok (Some {| id := n; github_url := "https://github.com/o/r";
                   key_features := None |}), w);
    _get_all_registered_repositories := fun w => (Ok [], w);
    search_similar_repositories := fun _ _ w => (Ok [], w);
    compare_repository_code := fun _ _ w =>
      (Ok {| similarity_score := Some (9 # 10); evidence := [] |}, w);
    _generate_and_file_dmca := fun _ _ _ w => (DmcaFiled "dmca_1" "QmCid", S w)
  |} in
  (14 # 10 <= _calculate_bounty_amount (9 # 10))%Q /\
  (_calculate_bounty_amount (9 # 10) <= 2)%Q.
Proof.
  intros services.
  pose proof (granted_bounty_claim (fun _ => "1") (fun _ => "90.00%") services
                "https://github.com/x/copy" (Some 1) 0%nat 1%nat
                [Compared "https://github.com/o/r" "https://github.com/x/copy"
                   (Ok {| similarity_score := Some (9 # 10); evidence := [] |});
                 GeneratedDMCA "https://github.com/o/r" "https://github.com/x/copy"
                   (DmcaFiled "dmca_1" "QmCid")]
                (_calculate_bounty_amount (9 # 10)) (9 # 10) "tFIL" "pending_verification"
                (DmcaFiled "dmca_1" "QmCid") eq_refl) as H.
  destruct H as (_ & _ & Hlo & Hhi & _). split; assumption.
Defined.

Lemma bounty_needs_a_repository_id_witness :
  report_infringement_bounty (fun _ => "0") (fun _ => "0%") demo_services
    "https://github.com/x/copy" (Some 0) 0%nat
  = (Ok (BountyError "No matching registered repository found" None None), 0%nat, []).
Proof.
  apply (bounty_needs_a_repository_id (fun _ => "0") (fun _ => "0%") demo_services
           "https://github.com/x/copy" (Some 0) 0%nat (or_intror eq_refl)).
Defined.

(** X17: [_suggest_next_actions] always ends with "Monitor for future
    violations"; it proposes the DMCA notice exactly for a score above 0.7,
    the registration exactly for a score above 0.5 with no blockchain match,
    and the check of the existing protection exactly when there is a
    match. *)
Theorem suggested_actions (overall_similarity : option Q) (matched : bool) :
  let score := default 0%Q overall_similarity in
  let actions := _suggest_next_actions overall_similarity matched in
  last actions = Some "Monitor for future violations" /\
  (In "Generate and file DMCA notice" actions <-> (7 # 10 < score)%Q) /\
  (In "Register original repository on blockchain" actions <->
   (5 # 10 < score)%Q /\ matched = false) /\
  (In "Check existing protection status" actions <-> matched = true).
Proof.
  cbv zeta. unfold _suggest_next_actions.
  rewrite <- !PyFacts.Qgtb_true.
  destruct (Qgtb (default 0%Q overall_similarity) (7 # 10));
    destruct (Qgtb (default 0%Q overall_similarity) (5 # 10));
    destruct matched; cbn;
    (split; [reflexivity|]); repeat split; intros; intuition (try discriminate).
Qed.

Section QueryFacts.
Context {W Repository : Type} (chain : Chain W Repository).

Lemma get_repository_never_raises (repo_id : Z) (w : W) :
  exists found w',
    get_repository_from_chain chain repo_id w
    = (Ok found, w', [AskedRepository repo_id (if found is Some _ then true else false)]).
Proof.
  unfold get_repository_from_chain, try_catch, ret.
  destruct (call_get_repository chain repo_id w) as [[repo|e] w'].
  - exists (Some repo), w'. reflexivity.
  - exists None, w'. reflexivity.
Qed.

Lemma collect_repositories (ids : list Z) :
  forall (acc : list Repository) (w : W),
    let '(r, w', log) :=
      fold_each ids
        (fun repo_id repositories =>
           let* repo_result := get_repository_from_chain chain repo_id in
           match repo_result with
           | Some repo => ret (repositories ++ [repo])
           | None => ret repositories
           end) acc w in
    exists data, r = Ok data /\ asked_ids log = ids /\
      (length data <= length acc + length ids)%nat /\
      (forall e, ~ In (AskedTotal e) log).
Proof.
  induction ids as [|i ids IH]; intros acc w.
  - cbn. exists acc. repeat split; [lia|auto].
  - cbn [fold_each]. unfold bind at 1. unfold bind at 1.
    destruct (get_repository_never_raises i w) as (found & w1 & ->).
    set (acc1 := match found with Some repo => acc ++ [repo] | None => acc end).
    assert (Hacc : (length acc1 <= S (length acc))%nat).
    { subst acc1. destruct found; rewrite ?length_app; simpl; lia. }
    replace ((match found with
              | Some repo => ret (acc ++ [repo])
              | None => ret acc
              end) w1) with ((Ok acc1, w1, []) : Res (list Repository) * W * list Event)
      by (subst acc1; destruct found; reflexivity).
    specialize (IH acc1 w1).
    destruct (fold_each ids _ acc1 w1) as [[r w2] l2].
    destruct IH as (data & -> & Hids & Hlen & Hno).
    exists data. split; [reflexivity|]. unfold asked_ids in *. cbn. rewrite Hids.
    split; [reflexivity|]. split; [lia|].
    intros e Hin. simpl in Hin. destruct Hin as [H|H]; [discriminate|exact (Hno e H)].
Qed.

Lemma length_range_from (a b : Z) : length (range_from a b) = Z.to_nat (b - a).
Proof. unfold range_from. rewrite length_map, length_seq. reflexivity. Qed.

(** X18: [query_blockchain_data] never raises.  For the repositories it
    asks the chain for the ids from [max(1, total - limit + 1)] to [total],
    in ascending order, that is for [max(0, min(total, limit))] of them, and
    returns at most that many; when the total cannot be read the answer is a
    success with a total of 0 and no data.  Any other query type is
    refused without a call. *)
Theorem query_asks_for_the_last_ids (query_type : string) (limit : Z) (w : W) :
  let '(r, w', log) := query_blockchain_data chain query_type limit w in
  (query_type <> "repositories" ->
   r = Ok (QueryError ("Unknown query type: " +:+ query_type)) /\ log = []) /\
  (query_type = "repositories" ->
   exists total data,
     r = Ok (QueryData "repositories" total (length data) data) /\
     asked_ids log = range_from (Z.max 1 (total - limit + 1)) (total + 1) /\
     Z.of_nat (length (asked_ids log)) = Z.max 0 (Z.min total limit) /\
     (length data <= length (asked_ids log))%nat /\
     (forall e, In (AskedTotal (Raise e)) log -> total = 0 /\ data = [])).
Proof.
  unfold query_blockchain_data, try_catch.
  destruct (String.eqb query_type "repositories") eqn:Hq.
  - apply String.eqb_eq in Hq.
    unfold bind at 1. unfold get_total_repositories, try_catch, ret at 1.
    destruct (call_total_repositories chain w) as [[total|e] w1].
    + unfold bind at 1.
      pose proof (collect_repositories
                    (range_from (Z.max 1 (total - limit + 1)) (total + 1)) [] w1) as H.
      destruct (fold_each _ _ [] w1) as [[r w2] l2].
      destruct H as (data & -> & Hids & Hlen & Hno).
      unfold ret. cbn. rewrite !app_nil_r.
      split; [intros Hne; contradiction|]. intros _.
      exists total, data.
      split; [reflexivity|]. unfold asked_ids in *. cbn. rewrite Hids.
      split; [reflexivity|]. rewrite length_range_from in *.
      split; [lia|]. split; [simpl in Hlen; lia|].
      intros e0 Hin. simpl in Hin. destruct Hin as [H|H]; [discriminate|].
      destruct (Hno _ H).
    + unfold bind at 1.
      pose proof (collect_repositories
                    (range_from (Z.max 1 (0 - limit + 1)) (0 + 1)) [] w1) as H.
      destruct (fold_each _ _ [] w1) as [[r w2] l2].
      destruct H as (data & -> & Hids & Hlen & Hno).
      unfold ret. cbn. rewrite !app_nil_r.
      split; [intros Hne; contradiction|]. intros _.
      exists 0, data.
      split; [reflexivity|]. unfold asked_ids in *. cbn. rewrite Hids.
      split; [reflexivity|]. rewrite length_range_from in *.
      split; [lia|]. split; [simpl in Hlen; lia|].
      intros _ _. split; [reflexivity|].
      destruct data; [reflexivity|]. simpl in Hlen. lia.
  - unfold ret. split; [auto|]. intros ->. discriminate.
Qed.

End QueryFacts.

Example query_of_the_last_two :
  query_blockchain_data demo_chain "repositories" 2 0%nat
  = (Ok (QueryData "repositories" 3 1 ["repository"]), 3%nat,
     [AskedTotal (Ok 3); AskedRepository 2 false; AskedRepository 3 true]).
Proof. reflexivity. Qed.

End AgentMoreFacts.

(** ** The bounty system: validation and leaderboard *)

Module BountySystemFacts.
Import Py Agent BountySystem.

Section ValidationFacts.
Context {W : Type} (compare_repository_code : string -> string -> W -> Res Comparison * W).

(** X19: [validate_infringement] never raises; the claim is valid exactly
    when the comparison returned a score of at least 0.7 (the fixed
    confidence 0.85 always passes its 0.8 bar), which is the condition under
    which [report_infringement_bounty] does not reject the claim as too
    low; when the comparison raises the claim is not valid. *)
Theorem validation_follows_the_threshold
    (original infringing : string) (evidence : Evidence) (w : W) :
  let '(r, w', log) :=
    validate_infringement compare_repository_code original infringing evidence w in
  exists v, r = Ok v /\
    match compare_repository_code original infringing w with
    | (Ok c, w1) =>
        w' = w1 /\
        (is_valid_of v = true <-> (7 # 10 <= score_of c)%Q) /\
        is_valid_of v = negb (Qgtb threshold (score_of c))
    | (Raise e, w1) => w' = w1 /\ v = NotValidated (str e)
    end.
Proof.
  unfold validate_infringement, try_catch, bind, ret.
  destruct (compare_repository_code original infringing w) as [[c|e] w1]; cbn.
  - eexists. split; [reflexivity|]. split; [reflexivity|]. cbn.
    change (Qgtb (85 # 100) (8 # 10)) with true. rewrite andb_true_r.
    split; [|reflexivity].
    rewrite negb_true_iff. apply PyFacts.Qgtb_false.
  - eexists. split; [reflexivity|]. auto.
Qed.

End ValidationFacts.

Lemma insert_by_reports_In (x : Stat) (l : list Stat) (y : Stat) :
  In y (insert_by_reports x l) <-> y = x \/ In y l.
Proof.
  induction l as [|z l IH]; simpl.
  - split; [intros [H|[]]; auto|intros [H|[]]; auto].
  - destruct (reports z <=? reports x); simpl; [split; intros [H|H]; auto|].
    rewrite IH. tauto.
Qed.

Lemma sort_by_reports_In (l : list Stat) (y : Stat) :
  In y (sort_by_reports l) <-> In y l.
Proof.
  induction l as [|x l IH]; simpl; [tauto|].
  rewrite insert_by_reports_In, IH. split; intros [H|H]; auto.
Qed.

Lemma insert_by_reports_sorted (x : Stat) (l : list Stat) :
  StronglySorted more_reports l -> StronglySorted more_reports (insert_by_reports x l).
Proof.
  induction l as [|y l IH]; intros Hs; simpl.
  - repeat constructor.
  - apply StronglySorted_inv in Hs as [Hl Hy].
    destruct (reports y <=? reports x) eqn:Hc.
    + apply Z.leb_le in Hc. constructor; [constructor; assumption|].
      constructor; [exact Hc|].
      eapply Forall_impl; [exact Hy|]. unfold more_reports. intros z Hz. lia.
    + apply Z.leb_gt in Hc. constructor; [apply IH, Hl|].
      apply Forall_forall. intros z Hz. apply list_elem_of_In in Hz.
      apply insert_by_reports_In in Hz as [->|Hz].
      * unfold more_reports. lia.
      * rewrite Forall_forall in Hy. apply Hy, list_elem_of_In, Hz.
Qed.

Lemma sort_by_reports_sorted (l : list Stat) :
  StronglySorted more_reports (sort_by_reports l).
Proof.
  induction l as [|x l IH]; simpl; [constructor|].
  apply insert_by_reports_sorted, IH.
Qed.

Lemma insert_by_reports_addresses (x : Stat) (l : list Stat) :
  List.NoDup (map address (x :: l)) -> List.NoDup (map address (insert_by_reports x l)).
Proof.
  induction l as [|y l IH]; intros Hn; simpl; [exact Hn|].
  destruct (reports y <=? reports x); [exact Hn|].
  simpl in Hn. inversion Hn as [|? ? Hx Hrest]; subst.
  inversion Hrest as [|? ? Hy Hl]; subst.
  simpl. constructor.
  - intros Hin. apply in_map_iff in Hin as (z & Hz & Hin).
    apply insert_by_reports_In in Hin as [->|Hin].
    + apply Hx. left. congruence.
    + apply Hy. rewrite <- Hz. apply in_map. exact Hin.
  - apply IH. simpl. constructor; [|exact Hl].
    intros Hin. apply Hx. right. exact Hin.
Qed.

Lemma sort_by_reports_addresses (l : list Stat) :
  List.NoDup (map address l) -> List.NoDup (map address (sort_by_reports l)).
Proof.
  induction l as [|x l IH]; intros Hn; simpl; [constructor|].
  apply insert_by_reports_addresses. simpl. simpl in Hn.
  inversion Hn as [|? ? Hx Hl]; subst. constructor; [|apply IH, Hl].
  intros Hin. apply Hx. apply in_map_iff in Hin as (z & Hz & Hin).
  apply (proj1 (sort_by_reports_In l z)) in Hin. rewrite <- Hz. apply in_map. exact Hin.
Qed.

Lemma take_sorted (n : nat) (l : list Stat) :
  StronglySorted more_reports l -> StronglySorted more_reports (take n l).
Proof.
  revert n. induction l as [|x l IH]; intros [|n] Hs; simpl; try constructor.
  - apply IH. apply StronglySorted_inv in Hs. tauto.
  - apply StronglySorted_inv in Hs as [_ Hx].
    apply Forall_forall. intros y Hy. rewrite Forall_forall in Hx. apply Hx.
    apply list_elem_of_In. apply list_elem_of_In in Hy.
    apply list_elem_of_In, elem_of_take in Hy as (i & Hy & _).
    apply list_elem_of_In. eapply list_elem_of_lookup_2. exact Hy.
Qed.

Lemma take_In {A : Type} (n : nat) (l : list A) (x : A) : In x (take n l) -> In x l.
Proof.
  intros H. apply list_elem_of_In, elem_of_take in H as (i & H & _).
  apply list_elem_of_In. eapply list_elem_of_lookup_2. exact H.
Qed.

Lemma take_NoDup {A : Type} (n : nat) (l : list A) :
  List.NoDup l -> List.NoDup (take n l).
Proof.
  revert n. induction l as [|x l IH]; intros [|n] Hn; simpl; try constructor.
  - inversion Hn; subst. intros Hin. apply take_In in Hin. contradiction.
  - inversion Hn; subst. apply IH. assumption.
Qed.

Lemma reports_of_snoc (who : string) (done : list Report) (r : Report) :
  reports_of who (done ++ [r])
  = reports_of who done + (if String.eqb (reporter r) who then 1 else 0).
Proof.
  unfold reports_of. rewrite List.filter_app, length_app. simpl.
  destruct (String.eqb (reporter r) who); simpl; lia.
Qed.

Lemma reports_of_none (who : string) (done : list Report) :
  (forall r, In r done -> reporter r <> who) -> reports_of who done = 0.
Proof.
  unfold reports_of. induction done as [|r done IH]; intros H; [reflexivity|].
  simpl. destruct (String.eqb (reporter r) who) eqn:E.
  - apply String.eqb_eq in E. destruct (H r (or_introl eq_refl) E).
  - apply IH. intros r0 Hin. apply H. right. exact Hin.
Qed.

Lemma bump_addresses (who : string) (stats : list Stat) (a : string) :
  In a (map address (bump who stats)) <-> a = who \/ In a (map address stats).
Proof.
  induction stats as [|s stats IH]; simpl.
  - split; [intros [H|[]]; auto|intros [H|[]]; auto].
  - destruct (String.eqb (address s) who) eqn:Hs; simpl.
    + apply String.eqb_eq in Hs. split; [tauto|]. intros [->|H]; auto.
    + rewrite IH. tauto.
Qed.

Lemma bump_NoDup (who : string) (stats : list Stat) :
  List.NoDup (map address stats) -> List.NoDup (map address (bump who stats)).
Proof.
  induction stats as [|s stats IH]; intros Hn; simpl.
  - repeat constructor. intros [].
  - simpl in Hn. inversion Hn as [|? ? Hx Hrest]; subst.
    destruct (String.eqb (address s) who) eqn:Hs; simpl; [exact Hn|].
    apply String.eqb_neq in Hs. constructor; [|apply IH, Hrest].
    intros Hin. apply bump_addresses in Hin as [Heq|Hin]; [congruence|contradiction].
Qed.

Lemma bump_elements (who : string) (stats : list Stat) (s' : Stat) :
  List.NoDup (map address stats) ->
  In s' (bump who stats) ->
  (address s' <> who /\ In s' stats) \/
  (address s' = who /\
   ((exists s, In s stats /\ address s = who /\
               reports s' = reports s + 1 /\ total_earned s' = total_earned s + 1) \/
    (~ In who (map address stats) /\ reports s' = 1 /\ total_earned s' = 1))).
Proof.
  induction stats as [|s stats IH]; intros Hn Hin; simpl in *.
  - destruct Hin as [<-|[]]. right. simpl. split; [reflexivity|]. right. auto.
  - inversion Hn as [|? ? Hx Hrest]; subst.
    destruct (String.eqb (address s) who) eqn:Hs.
    + apply String.eqb_eq in Hs. destruct Hin as [<-|Hin]; simpl.
      * right. split; [exact Hs|]. left. exists s. auto.
      * left. split; [|right; exact Hin].
        intros Heq. apply Hx. rewrite Hs, <- Heq. apply in_map. exact Hin.
    + apply String.eqb_neq in Hs. destruct Hin as [<-|Hin].
      * left. auto.
      * destruct (IH Hrest Hin) as [[Hne Hin']|[Heq [(s0 & Hin0 & Ha & Hr & Ht)|(Hno & Hr & Ht)]]].
        -- left. auto.
        -- right. split; [exact Heq|]. left. exists s0. auto.
        -- right. split; [exact Heq|]. right. split; [|auto].
           intros [H|H]; [congruence|contradiction].
Qed.

Lemma bump_tallied (stats : list Stat) (done : list Report) (r : Report) :
  tallied stats done -> tallied (bump (reporter r) stats) (done ++ [r]).
Proof.
  intros (Hn & Hs & Hr). split; [apply bump_NoDup, Hn|]. split.
  - intros s' Hin. rewrite reports_of_snoc.
    destruct (bump_elements _ _ _ Hn Hin)
      as [[Hne Hin']|[Heq [(s0 & Hin0 & Ha & Hrep & Ht)|(Hno & Hrep & Ht)]]].
    + destruct (Hs s' Hin') as (H1 & H2 & H3).
      destruct (String.eqb (reporter r) (address s')) eqn:E; [|lia].
      apply String.eqb_eq in E. congruence.
    + destruct (Hs s0 Hin0) as (H1 & H2 & H3).
      rewrite Heq, String.eqb_refl. rewrite Ha in H1. lia.
    + rewrite Heq, String.eqb_refl.
      rewrite reports_of_none; [lia|].
      intros r0 Hin0 Heq0. apply Hno. rewrite <- Heq0. apply Hr, Hin0.
  - intros r0 Hin. apply bump_addresses.
    apply in_app_iff in Hin as [Hin|[<-|[]]]; auto.
Qed.

Lemma tally_from (rest : list Report) :
  forall stats done,
    tallied stats done ->
    tallied (fold_left (fun stats r => bump (reporter r) stats) rest stats) (done ++ rest).
Proof.
  induction rest as [|r rest IH]; intros stats done H; simpl.
  - rewrite app_nil_r. exact H.
  - replace (done ++ r :: rest) with ((done ++ [r]) ++ rest)
      by (rewrite <- app_assoc; reflexivity).
    apply IH, bump_tallied, H.
Qed.

Lemma tally_tallied (verified_reports : list Report) :
  tallied (tally verified_reports) verified_reports.
Proof.
  apply (tally_from verified_reports [] []).
  split; [constructor|]. split; intros ? [].
Qed.

(** X20: the leaderboard has at most 10 entries, most reports first, one
    per reporter; each entry counts the reports of its reporter (at least
    one) and earns 1 FIL per report; with at most 10 reporters everyone who
    reported is on it. *)
Theorem leaderboard_is_a_ranking (verified_reports : list Report) :
  let board := get_bounty_leaderboard verified_reports in
  (length board <= 10)%nat /\
  StronglySorted more_reports board /\
  List.NoDup (map address board) /\
  (forall s, In s board ->
     reports s = reports_of (address s) verified_reports /\
     total_earned s = reports s /\ 1 <= reports s) /\
  ((length (tally verified_reports) <= 10)%nat ->
   forall r, In r verified_reports -> In (reporter r) (map address board)).
Proof.
  destruct (tally_tallied verified_reports) as (Hn & Hs & Hr).
  cbv zeta. unfold get_bounty_leaderboard.
  split; [rewrite length_take; lia|].
  split; [apply take_sorted, sort_by_reports_sorted|].
  split; [rewrite <- firstn_map; apply take_NoDup, sort_by_reports_addresses, Hn|].
  split.
  - intros s Hin. apply take_In in Hin.
    apply (proj1 (sort_by_reports_In _ s)) in Hin. apply Hs, Hin.
  - intros Hlen r Hin.
    assert (Hl : length (sort_by_reports (tally verified_reports))
                 = length (tally verified_reports)).
    { generalize (tally verified_reports). intros l.
      induction l as [|x l IH]; [reflexivity|]. simpl.
      rewrite <- IH. generalize (sort_by_reports l). intros l0.
      induction l0 as [|y l0 IH0]; [reflexivity|]. simpl.
      destruct (reports y <=? reports x); simpl; [reflexivity|]. rewrite IH0. reflexivity. }
    rewrite take_ge by lia.
    destruct (proj1 (in_map_iff _ _ _) (Hr r Hin)) as (s & Hs' & Hin').
    rewrite <- Hs'. apply in_map. apply sort_by_reports_In. exact Hin'.
Qed.

Lemma leaderboard_is_a_ranking_witness :
  (length (tally demo_reports) <= 10)%nat /\
  forall r, In r demo_reports ->
    In (reporter r) (map address (get_bounty_leaderboard demo_reports)).
Proof.
  assert (Hlen : (length (tally demo_reports) <= 10)%nat) by (vm_compute; lia).
  split; [exact Hlen|].
  destruct (leaderboard_is_a_ranking demo_reports) as (_ & _ & _ & _ & H).
  exact (H Hlen).
Defined.

End BountySystemFacts.
